(** * Transcript cleaning and fallback summarisation (scripts/)

    A shallow embedding of [scripts/summarize_transcript.py] and
    [scripts/summarize_transcript_with_agnos.py].

    Conventions.
    - A Python [str] is a [list ascii]; a character is a code point below
      256, with Python's own classification of those code points
      ([str.isspace], the regex classes [\s], [\d], [[a-z]]).
    - [re.sub] is modelled by a small backtracking matcher over a regex
      syntax tree, so that every pattern of the source is written down as
      the pattern it is.
    - JSON data (what [response.json()] and [json.load] return) is [pyval];
      a dict is an association list from keys to values.
    - Code that can raise returns a [result]. *)

From Stdlib Require Import Ascii String ZArith Lia Bool Arith List.
From Stdlib Require Import DecimalString.
Import ListNotations.

Set Warnings "-register-all,-abstract-large-number".

(* ------------------------------------------------------------------ *)
(** ** Strings *)

Definition str := list ascii.

Definition lit (s : string) : str := list_ascii_of_string s.

Definition nl : ascii := ascii_of_nat 10.
Definition dquote : ascii := ascii_of_nat 34.

Definition code (c : ascii) : nat := nat_of_ascii c.

Definition in_range (lo hi : nat) (c : ascii) : bool :=
  (lo <=? code c) && (code c <=? hi).

(** [str.isspace] and the regex class [\s] agree in Python 3: below 256 the
    whitespace code points are TAB..CR, FS..US, SPACE, NEL and NBSP. *)
Definition is_space (c : ascii) : bool :=
  in_range 9 13 c || in_range 28 32 c || (code c =? 133) || (code c =? 160).

(** [\d]: below 256 the only decimal digits are 0..9. *)
Definition is_digit (c : ascii) : bool := in_range 48 57 c.

(** [[a-z]] *)
Definition is_lower (c : ascii) : bool := in_range 97 122 c.

(** [[^>]] *)
Definition not_gt (c : ascii) : bool := negb (Ascii.eqb c ">").

(** [sep.join(parts)] *)
Fixpoint join (sep : str) (parts : list str) : str :=
  match parts with
  | [] => []
  | [x] => x
  | x :: rest => x ++ sep ++ join sep rest
  end.

(** [s.lstrip()], [s.rstrip()] and [s.strip()] *)
Fixpoint lstrip (s : str) : str :=
  match s with
  | [] => []
  | c :: t => if is_space c then lstrip t else s
  end.

Fixpoint rstrip (s : str) : str :=
  match s with
  | [] => []
  | c :: t =>
      match rstrip t with
      | [] => if is_space c then [] else [c]
      | r => c :: r
      end
  end.

Definition strip (s : str) : str := lstrip (rstrip s).

(** [s.split()]: the maximal runs of non-whitespace characters, in order.
    [w] is the word being read. *)
Fixpoint split_from (w : str) (s : str) : list str :=
  match s with
  | [] => match w with [] => [] | _ => [w] end
  | c :: t =>
      if is_space c
      then match w with [] => split_from [] t | _ => w :: split_from [] t end
      else split_from (w ++ [c]) t
  end.

Definition split (s : str) : list str := split_from [] s.

(** [str(n)] for a non-negative integer *)
Definition str_of_nat (n : nat) : str :=
  lit (NilZero.string_of_uint (Nat.to_uint n)).

(** [needle in hay] *)
Definition contains (needle hay : str) : Prop :=
  exists pre post, hay = pre ++ needle ++ post.

(* ------------------------------------------------------------------ *)
(** ** Regular expressions: the fragment the scripts use *)

Inductive regex : Type :=
| Eps                            (* the empty pattern *)
| Chr (c : ascii)                (* a literal character *)
| Cls (p : ascii -> bool)        (* a character class *)
| Cat (r1 r2 : regex)            (* r1 r2 *)
| Opt (r : regex)                (* r?   greedy *)
| Star (p : ascii -> bool)       (* [p]* greedy *)
| Plus (p : ascii -> bool).      (* [p]+ greedy *)

(** [r{n}] *)
Fixpoint times (n : nat) (r : regex) : regex :=
  match n with
  | 0 => Eps
  | 1 => r
  | S m => Cat r (times m r)
  end.

(** Greedy iteration of a class with backtracking: take as many characters
    as possible, give them back one at a time while the continuation
    fails. *)
Fixpoint star_cls (p : ascii -> bool) (s : str) (k : str -> option str)
  : option str :=
  match s with
  | c :: t =>
      if p c
      then match star_cls p t k with
           | Some x => Some x
           | None => k s
           end
      else k s
  | [] => k s
  end.

(** The backtracking matcher, in continuation-passing style: [rmatch r s k]
    matches [r] at the start of [s] and hands what is left to [k]; the first
    alternative that lets [k] succeed wins. *)
Fixpoint rmatch (r : regex) (s : str) (k : str -> option str) : option str :=
  match r with
  | Eps => k s
  | Chr c =>
      match s with
      | a :: t => if Ascii.eqb a c then k t else None
      | [] => None
      end
  | Cls p =>
      match s with
      | a :: t => if p a then k t else None
      | [] => None
      end
  | Cat r1 r2 => rmatch r1 s (fun t => rmatch r2 t k)
  | Opt r1 =>
      match rmatch r1 s k with
      | Some x => Some x
      | None => k s
      end
  | Star p => star_cls p s k
  | Plus p =>
      match s with
      | a :: t => if p a then star_cls p t k else None
      | [] => None
      end
  end.

(** The match of [r] at the start of [s]: what is left after it. *)
Definition match_at (r : regex) (s : str) : option str := rmatch r s Some.

(** Its length. *)
Definition match_len (r : regex) (s : str) : option nat :=
  match match_at r s with
  | Some rest => Some (length s - length rest)
  | None => None
  end.

(** [re.sub(r, repl, s)]: scan from the left; where [r] matches, emit [repl]
    and resume after the match, otherwise keep the character.  [skip] counts
    the characters of the current match still to be passed over.  None of
    the patterns below matches the empty string, so a match always has a
    first character. *)
Fixpoint sub_from (r : regex) (repl : str) (skip : nat) (s : str) : str :=
  match s with
  | [] => []
  | c :: t =>
      match skip with
      | S n => sub_from r repl n t
      | 0 =>
          match match_len r s with
          | Some (S n) => repl ++ sub_from r repl n t
          | _ => c :: sub_from r repl 0 t
          end
      end
  end.

Definition re_sub (r : regex) (repl : str) (s : str) : str :=
  sub_from r repl 0 s.

(** The patterns of the two scripts. *)

(** [<\d{2}:\d{2}:\d{2}\.\d{3}>] *)
Definition re_timestamp : regex :=
  Cat (Chr "<")
   (Cat (times 2 (Cls is_digit))
    (Cat (Chr ":")
     (Cat (times 2 (Cls is_digit))
      (Cat (Chr ":")
       (Cat (times 2 (Cls is_digit))
        (Cat (Chr ".")
         (Cat (times 3 (Cls is_digit))
          (Chr ">")))))))).

(** [</?[a-z][^>]*>] *)
Definition re_style : regex :=
  Cat (Chr "<") (Cat (Opt (Chr "/")) (Cat (Cls is_lower)
    (Cat (Star not_gt) (Chr ">")))).

(** [<[^>]*>] *)
Definition re_angle : regex :=
  Cat (Chr "<") (Cat (Star not_gt) (Chr ">")).

(** [<[^>]+>] *)
Definition re_tag : regex :=
  Cat (Chr "<") (Cat (Plus not_gt) (Chr ">")).

(** [\s+] *)
Definition re_spaces : regex := Plus is_space.

(* ------------------------------------------------------------------ *)
(** ** Python values, exceptions and results *)

(** The exceptions the scripts meet.  All are subclasses of [Exception]
    except [SystemExit], which [sys.exit] raises. *)
Inductive exn : Type :=
| KeyError
| TypeError
| AttributeError
| OSError
| RequestException (msg : str)   (* requests.RequestException and subclasses *)
| PlainException (msg : str)     (* raise Exception(msg) *)
| LibraryError (msg : str)       (* an Exception of a client library *)
| SystemExit (status : Z).

(** [isinstance(e, Exception)] *)
Definition is_Exception (e : exn) : bool :=
  match e with
  | SystemExit _ => false
  | _ => true
  end.

Inductive result (A : Type) : Type :=
| Ok (a : A)
| Raise (e : exn).

Arguments Ok {A} a.
Arguments Raise {A} e.

Definition bind {A B : Type} (c : result A) (k : A -> result B) : result B :=
  match c with
  | Ok a => k a
  | Raise e => Raise e
  end.

Declare Scope result_scope.
Delimit Scope result_scope with result.
Notation "x <- c ;; k" := (bind c (fun x => k))
  (at level 61, c at next level, right associativity) : result_scope.

(** What [response.json()] and [json.load] produce. *)
Inductive pyval : Type :=
| PNone
| PBool (b : bool)
| PNum (z : Z)
| PStr (s : str)
| PList (l : list pyval)
| PDict (d : list (string * pyval)).

(** [bool(v)] *)
Definition truthy (v : pyval) : bool :=
  match v with
  | PNone => false
  | PBool b => b
  | PNum z => negb (z =? 0)%Z
  | PStr [] => false
  | PStr _ => true
  | PList [] => false
  | PList _ => true
  | PDict [] => false
  | PDict _ => true
  end.

(** The entry of [key] in a dict. *)
Fixpoint dict_get (key : string) (d : list (string * pyval)) : option pyval :=
  match d with
  | [] => None
  | (k, v) :: rest => if String.eqb k key then Some v else dict_get key rest
  end.

(** [v[key]] for a string key *)
Definition subscript (v : pyval) (key : string) : result pyval :=
  match v with
  | PDict d =>
      match dict_get key d with
      | Some x => Ok x
      | None => Raise KeyError
      end
  | _ => Raise TypeError
  end.

(** [v.get(key, default)] *)
Definition get_default (v : pyval) (key : string) (default : pyval)
  : result pyval :=
  match v with
  | PDict d =>
      match dict_get key d with
      | Some x => Ok x
      | None => Ok default
      end
  | _ => Raise AttributeError
  end.

(** [v.get(key)] *)
Definition get (v : pyval) (key : string) : result pyval :=
  get_default v key PNone.

(** A value where the code needs a [str] ([re.sub], [str.join]). *)
Definition as_str (v : pyval) : result str :=
  match v with
  | PStr s => Ok s
  | _ => Raise TypeError
  end.

(** [for x in v]: the items the loop visits. *)
Definition iterate (v : pyval) : result (list pyval) :=
  match v with
  | PList l => Ok l
  | PStr s => Ok (map (fun c => PStr [c]) s)
  | PDict d => Ok (map (fun kv => PStr (lit (fst kv))) d)
  | _ => Raise TypeError
  end.

(** [len(v)] *)
Definition py_len (v : pyval) : result Z :=
  match v with
  | PList l => Ok (Z.of_nat (length l))
  | PStr s => Ok (Z.of_nat (length s))
  | PDict d => Ok (Z.of_nat (length d))
  | _ => Raise TypeError
  end.

(** [l[a:b]] for [0 <= a <= b] *)
Definition slice {A : Type} (a b : Z) (l : list A) : list A :=
  firstn (Z.to_nat (b - a)) (skipn (Z.to_nat a) l).

(** [l[a:]] for [0 <= a] *)
Definition slice_from {A : Type} (a : Z) (l : list A) : list A :=
  skipn (Z.to_nat a) l.

(* ------------------------------------------------------------------ *)
(** ** scripts/summarize_transcript.py: [clean_transcript_text] *)

Open Scope result_scope.

(** The four substitutions and the [strip] of one turn of the loop. *)
Definition clean_segment_text (text : str) : str :=
  let text := re_sub re_timestamp [] text in
  let text := re_sub re_style [] text in
  let text := re_sub re_angle [] text in
  let text := re_sub re_spaces (lit " ") text in
  strip text.

(** One turn: [segment["text"]], then the substitutions. *)
Definition clean_segment (segment : pyval) : result str :=
  text <- subscript segment "text" ;;
  text <- as_str text ;;
  Ok (clean_segment_text text).

(** The loop over the segments; it stops at the first exception. *)
Fixpoint clean_loop (segments : list pyval) (cleaned_texts : list str)
  : result (list str) :=
  match segments with
  | [] => Ok cleaned_texts
  | segment :: rest =>
      t <- clean_segment segment ;;
      clean_loop rest (cleaned_texts ++ [t])
  end.

Definition clean_transcript_text (segments : pyval) : result str :=
  if negb (truthy segments) then Ok []
  else
    items <- iterate segments ;;
    cleaned_texts <- clean_loop items [] ;;
    Ok (join (lit " ") cleaned_texts).

(* ------------------------------------------------------------------ *)
(** ** scripts/summarize_transcript_with_agnos.py *)

(** [if title] for an optional string *)
Definition title_given (title : option str) : bool :=
  match title with
  | Some (_ :: _) => true
  | _ => false
  end.

(** [f"{title}"] *)
Definition title_str (title : option str) : str :=
  match title with
  | Some t => t
  | None => lit "None"
  end.

(** The tag removal and whitespace normalisation both functions of this
    script start with. *)
Definition strip_tags (text : str) : str :=
  let text := re_sub re_tag [] text in
  strip (re_sub re_spaces (lit " ") text).

Definition short_notice (total_words : nat) : str :=
  lit "This video has very little spoken content. "
  ++ lit "The transcript contains only "
  ++ str_of_nat total_words ++ lit " words.".

Definition middle_start (total_words : nat) : Z :=
  Z.max 0 (Z.of_nat total_words / 2 - 50).

Definition end_start (total_words : nat) : Z :=
  Z.max 0 (Z.of_nat total_words - 100).

Definition title_text (title : option str) : str :=
  if title_given title
  then lit "Video: " ++ title_str title ++ [nl; nl]
  else [].

Definition report (title : option str) (total_words : nat)
  (beginning middle ending : str) : str :=
  title_text title
  ++ lit "This is a basic summary as the AI summarization service is unavailable."
  ++ [nl; nl]
  ++ lit "The video contains approximately " ++ str_of_nat total_words
  ++ lit " words of spoken content." ++ [nl; nl]
  ++ lit "Beginning excerpt: " ++ beginning ++ lit "..." ++ [nl; nl]
  ++ lit "Middle excerpt: " ++ middle ++ lit "..." ++ [nl; nl]
  ++ lit "Ending excerpt: " ++ ending ++ lit "..." ++ [nl].

(** The three excerpts: [words[:100]],
    [words[middle_start:middle_start + 100]] and [words[end_start:]],
    joined by blanks. *)
Definition beginning (words : list str) : str :=
  join (lit " ") (slice 0 100 words).

Definition middle (words : list str) : str :=
  let ms := middle_start (length words) in
  join (lit " ") (slice ms (ms + 100) words).

Definition ending (words : list str) : str :=
  join (lit " ") (slice_from (end_start (length words)) words).

Definition fallback_summarize (text : str) (title : option str) : str :=
  let text := strip_tags text in
  let words := split text in
  let total_words := length words in
  if total_words <? 50 then short_notice total_words
  else
    report title total_words (beginning words) (middle words) (ending words).

(** The OpenAI client: [client.chat.completions.create(model=..., messages=...,
    temperature=0.3, max_tokens=500)] followed by
    [response.choices[0].message.content].  A message is a role and a
    content. *)
Record client : Type := {
  chat_completions_create : str -> list (str * str) -> Z -> result str
}.

(** What the module-level code of the script reads when it is imported. *)
Record environment : Type := {
  import_agno_agent : bool;     (* [from agno.agent import Agent] succeeds *)
  import_openai : bool;         (* [import openai] succeeds *)
  import_AzureOpenAI : bool;    (* [from openai import AzureOpenAI] succeeds *)
  environ : string -> option str;
  AzureOpenAI : str -> str -> option str -> result client
}.

(** The module's two globals after import. *)
Record globals : Type := {
  USING_AGNO : bool;
  llm : option (str -> result str)
}.

(** [os.environ.get(name)] is truthy. *)
Definition env_set (E : environment) (name : string) : bool :=
  match environ E name with
  | Some (_ :: _) => true
  | _ => false
  end.

(** [os.getenv(name, default)] *)
Definition getenv (E : environment) (name : string) (default : str) : str :=
  match environ E name with
  | Some v => v
  | None => default
  end.

Definition summarize_with_openai (c : client) (deployment : str) (text : str)
  : result str :=
  chat_completions_create c deployment
    [ (lit "system",
       lit "You are a helpful assistant that summarizes video transcripts.");
      (lit "user",
       lit "Please summarize this transcript: " ++ firstn 4000 text
       ++ lit "...") ]
    500.

(** Lines 20-77: the imports, the check of the three environment variables
    and the construction of the client. *)
Definition module_init (E : environment) : result globals :=
  let using_agno := import_agno_agent E && import_openai E in
  let using_agno :=
    if using_agno then import_AzureOpenAI E else using_agno in
  let using_agno :=
    fold_left (fun u env_var => if negb (env_set E env_var) then false else u)
      ["AZURE_OPENAI_API_KEY"; "AZURE_OPENAI_API_VERSION";
       "AZURE_OPENAI_ENDPOINT"]%string using_agno in
  if using_agno then
    let api_key := environ E "AZURE_OPENAI_API_KEY" in
    let api_version :=
      getenv E "AZURE_OPENAI_API_VERSION" (lit "2024-12-01-preview") in
    let endpoint := environ E "AZURE_OPENAI_ENDPOINT" in
    let deployment := lit "gpt-4-1" in
    match api_key with
    | Some (c :: k) =>
        match AzureOpenAI E (c :: k) api_version endpoint with
        | Ok cl =>
            Ok {| USING_AGNO := true;
                  llm := Some (summarize_with_openai cl deployment) |}
        | Raise e =>
            if is_Exception e
            then Ok {| USING_AGNO := false; llm := None |}
            else Raise e
        end
    | _ => Ok {| USING_AGNO := false; llm := None |}
    end
  else Ok {| USING_AGNO := false; llm := None |}.

Fixpoint is_prefix (p s : str) : bool :=
  match p, s with
  | [], _ => true
  | a :: p', b :: s' => Ascii.eqb a b && is_prefix p' s'
  | _ :: _, [] => false
  end.

(** [p in s] for two strings *)
Fixpoint is_infix (p s : str) : bool :=
  match s with
  | [] => is_prefix p []
  | _ :: t => is_prefix p s || is_infix p t
  end.

Definition is_text_key (v : pyval) : bool :=
  match v with
  | PStr s => String.eqb (string_of_list_ascii s) "text"
  | _ => false
  end.

(** ['text' in seg] *)
Definition has_text (seg : pyval) : result bool :=
  match seg with
  | PDict d =>
      Ok (match dict_get "text" d with Some _ => true | None => false end)
  | PStr s => Ok (is_infix (lit "text") s)
  | PList l => Ok (existsb is_text_key l)
  | _ => Raise TypeError
  end.

(** [[seg.get('text', '') for seg in transcript if 'text' in seg]] *)
Fixpoint text_fields (transcript : list pyval) : result (list pyval) :=
  match transcript with
  | [] => Ok []
  | seg :: rest =>
      has <- has_text seg ;;
      if (has : bool)
      then v <- get_default seg "text" (PStr []) ;;
           vs <- text_fields rest ;;
           Ok (v :: vs)
      else text_fields rest
  end.

Fixpoint all_str (l : list pyval) : result (list str) :=
  match l with
  | [] => Ok []
  | v :: rest => s <- as_str v ;; ss <- all_str rest ;; Ok (s :: ss)
  end.

(** [sep.join(l)] on a list of values: every item has to be a [str]. *)
Definition py_join (sep : str) (l : list pyval) : result str :=
  ss <- all_str l ;; Ok (join sep ss).

(** Lines 90-96 of [agno_summarize]: the text that is summarised, before it
    is cleaned. *)
Definition transcript_text_of (transcript : pyval) : result str :=
  match transcript with
  | PList segs => fields <- text_fields segs ;; py_join (lit " ") fields
  | other => as_str other
  end.

Definition agno_prompt (transcript_text : str) (video_title : option str)
  : str :=
  let prompt := lit "Please summarize this video transcript" in
  let prompt :=
    if title_given video_title
    then prompt ++ lit " for the video titled: '" ++ title_str video_title
         ++ lit "'"
    else prompt in
  let prompt :=
    prompt ++ lit ". Focus on the main topics and key points." ++ [nl; nl] in
  prompt ++ firstn 4000 transcript_text.

Definition agno_summarize (G : globals) (transcript : pyval)
  (video_title : option str) : result str :=
  transcript_text <- transcript_text_of transcript ;;
  let transcript_text := strip_tags transcript_text in
  match (if USING_AGNO G then llm G else None) with
  | Some call =>
      match call (agno_prompt transcript_text video_title) with
      | Ok summary => Ok summary
      | Raise e =>
          if is_Exception e
          then Ok (fallback_summarize transcript_text video_title)
          else Raise e
      end
  | None => Ok (fallback_summarize transcript_text video_title)
  end.

(* ------------------------------------------------------------------ *)
(** ** scripts/summarize_transcript.py: the fetchers, the LLM call and the
       command-line driver *)

(** A [requests] response: the outcome of its two methods. *)
Record response : Type := {
  raise_for_status : result unit;
  json : result pyval
}.

(** What the driver talks to: the HTTP client, the process environment, the
    agno library (its model and agent objects are opaque), the file system,
    and the built-in [format] on a value that is not a [str]. *)
Record world : Type := {
  requests_get : str -> result response;
  os_getenv : string -> option str;
  model : Type;
  agent : Type;
  agno_AzureOpenAI : option str -> str -> option str -> str -> result model;
  agno_Agent : str -> model -> str -> result agent;
  agent_generate : agent -> str -> result str;
  open_w : str -> result unit;
  py_format : pyval -> str
}.

(** [get_llm()] *)
Definition get_llm (W : world) : result (model W) :=
  agno_AzureOpenAI W
    (os_getenv W "AZURE_OPENAI_API_KEY")
    (match os_getenv W "AZURE_OPENAI_API_VERSION" with
     | Some v => v
     | None => lit "2024-12-01-preview"
     end)
    (os_getenv W "AZURE_OPENAI_ENDPOINT")
    (lit "gpt-4-1").

(** [f"{v}"] *)
Definition format_value (W : world) (v : pyval) : str :=
  match v with
  | PStr s => s
  | other => py_format W other
  end.

(** What a run leaves behind: lines on standard output and dumped files. *)
Inductive event : Type :=
| Printed (text : str)
| Dumped (path : str) (video_id : str) (title : pyval) (summary : str).

(** A computation that appends to the trace and may raise. *)
Definition io (A : Type) : Type := list event -> list event * result A.

Definition ret {A : Type} (a : A) : io A := fun tr => (tr, Ok a).

Definition raise {A : Type} (e : exn) : io A := fun tr => (tr, Raise e).

Definition lift {A : Type} (c : result A) : io A := fun tr => (tr, c).

Definition emit (ev : event) : io unit := fun tr => (tr ++ [ev], Ok tt).

Definition print (text : str) : io unit := emit (Printed text).

Definition io_bind {A B : Type} (c : io A) (k : A -> io B) : io B :=
  fun tr =>
    match c tr with
    | (tr', Ok a) => k a tr'
    | (tr', Raise e) => (tr', Raise e)
    end.

Declare Scope io_scope.
Delimit Scope io_scope with io.
Notation "x <- c ;; k" := (io_bind c (fun x => k))
  (at level 61, c at next level, right associativity) : io_scope.
Notation "c ;; k" := (io_bind c (fun _ => k))
  (at level 61, right associativity) : io_scope.

(** The body of the [try] of [fetch_transcript]. *)
Definition fetch_transcript_try (W : world) (url : str) : result pyval :=
  response <- requests_get W url ;;
  _ <- raise_for_status response ;;
  data <- json response ;;
  success <- get data "success" ;;
  found <- (if truthy success
            then t <- get data "transcript" ;; Ok (truthy t)
            else Ok false) ;;
  if (found : bool) then subscript data "transcript"
  else
    message <- get_default data "message" (PStr (lit "Unknown error")) ;;
    Raise (PlainException
             (lit "Failed to fetch transcript: " ++ format_value W message)).

Definition fetch_transcript (W : world) (video_id api_base_url : str)
  : io pyval :=
  let url := api_base_url ++ lit "/api/youtube/transcript/" ++ video_id in
  match fetch_transcript_try W url with
  | Ok transcript => ret transcript
  | Raise (RequestException e) =>
      (print (lit "Error fetching transcript: " ++ e) ;; ret PNone)%io
  | Raise e => raise e
  end.

(** [v[0]] *)
Definition first_item (v : pyval) : result pyval :=
  match v with
  | PList (x :: _) => Ok x
  | PStr (c :: _) => Ok (PStr [c])
  | PDict _ => Raise KeyError
  | _ => Raise TypeError
  end.

(** The body of the [try] of [fetch_video_details]. *)
Definition fetch_video_details_try (W : world) (url : str) : result pyval :=
  response <- requests_get W url ;;
  _ <- raise_for_status response ;;
  data <- json response ;;
  items <- get data "items" ;;
  found <- (if truthy items
            then items <- subscript data "items" ;;
                 n <- py_len items ;;
                 Ok (0 <? n)%Z
            else Ok false) ;;
  if (found : bool)
  then items <- subscript data "items" ;; first_item items
  else Raise (PlainException (lit "No video details found")).

Definition fetch_video_details (W : world) (video_id api_base_url : str)
  : io pyval :=
  let url := api_base_url ++ lit "/api/youtube/video/" ++ video_id in
  match fetch_video_details_try W url with
  | Ok details => ret details
  | Raise (RequestException e) =>
      (print (lit "Error fetching video details: " ++ e) ;; ret PNone)%io
  | Raise e => raise e
  end.

Definition indent : str := lit "    ".

Definition agno_agent_prompt (transcript_text video_title : str) : str :=
  [nl] ++ indent
  ++ lit "You are tasked with creating a concise summary of the following video transcript."
  ++ [nl] ++ indent ++ [nl] ++ indent
  ++ lit "The video title is: " ++ [dquote] ++ video_title ++ [dquote]
  ++ [nl] ++ indent ++ [nl] ++ indent
  ++ lit "Based on the transcript, provide:" ++ [nl] ++ indent
  ++ lit "1. A brief 2-3 sentence summary of what the video is about"
  ++ [nl] ++ indent
  ++ lit "2. 3-5 key points or main takeaways from the content"
  ++ [nl] ++ indent
  ++ lit "3. The overall tone or style of the video (educational, entertainment, tutorial, etc.)"
  ++ [nl] ++ indent ++ [nl] ++ indent
  ++ lit "Format your response in clear, well-organized paragraphs."
  ++ [nl] ++ indent ++ [nl] ++ indent
  ++ lit "Here is the transcript:" ++ [nl] ++ indent
  ++ firstn 10000 transcript_text
  ++ lit "  # Limiting to first 10,000 chars to avoid token limits"
  ++ [nl] ++ indent.

Definition summarize_with_agno (W : world) (transcript_text : str)
  (video_title : pyval) : result str :=
  match transcript_text with
  | [] => Ok (lit "No transcript available to summarize.")
  | _ =>
      llm <- get_llm W ;;
      agent <- agno_Agent W (lit "TranscriptSummarizer") llm
                 (lit "An agent that summarizes video transcripts") ;;
      agent_generate W agent
        (agno_agent_prompt transcript_text (format_value W video_title))
  end.

(** The parsed command line. *)
Record args : Type := {
  video_id : str;
  api_url : str;
  output : option str
}.

Definition untitled : pyval := PStr (lit "Untitled Video").

Definition title_of_details (video_details : pyval) : result pyval :=
  if truthy video_details
  then snippet <- get_default video_details "snippet" (PDict []) ;;
       get_default snippet "title" untitled
  else Ok untitled.

Definition rule : str := [nl] ++ repeat "="%char 40.

(** The end of [main]: the result goes to the file [--output] names, or to
    standard output. *)
Definition output_result (W : world) (a : args) (video_title : pyval)
  (summary : str) : io unit :=
  (match output a with
   | Some (c :: p) =>
       lift (open_w W (c :: p)) ;;
       emit (Dumped (c :: p) (video_id a) video_title summary) ;;
       print (lit "Summary saved to " ++ c :: p)
   | _ =>
       print (rule ++ [nl]) ;;
       print (lit "Summary for: " ++ format_value W video_title ++ [nl]) ;;
       print summary ;;
       print rule
   end)%io.

Definition main (W : world) (a : args) : io unit :=
  (print (lit "Fetching transcript for video: " ++ video_id a) ;;
   transcript <- fetch_transcript W (video_id a) (api_url a) ;;
   if negb (truthy transcript) then raise (SystemExit 1)
   else
     print (lit "Fetching video details...") ;;
     video_details <- fetch_video_details W (video_id a) (api_url a) ;;
     video_title <- lift (title_of_details video_details) ;;
     n <- lift (py_len transcript) ;;
     print (lit "Processing transcript with " ++ str_of_nat (Z.to_nat n)
            ++ lit " segments") ;;
     transcript_text <- lift (clean_transcript_text transcript) ;;
     print (lit "Generating summary with Agno agent...") ;;
     summary <- lift (summarize_with_agno W transcript_text video_title) ;;
     output_result W a video_title summary)%io.

(** The interpreter around [main]: the trace of the run and the exit status
    of the process (0 on return, the status of a [SystemExit], 1 for any
    other exception that reaches the top). *)
Definition run (W : world) (a : args) : list event * result unit :=
  main W a [].

Definition exit_status (r : list event * result unit) : Z :=
  match snd r with
  | Ok _ => 0
  | Raise (SystemExit status) => status
  | Raise _ => 1
  end.

Definition is_dump (ev : event) : bool :=
  match ev with
  | Dumped _ _ _ _ => true
  | Printed _ => false
  end.

(** Some output file was written during the run. *)
Definition wrote_file (r : list event * result unit) : bool :=
  existsb is_dump (fst r).

(* ------------------------------------------------------------------ *)
(** ** Vocabulary of the properties *)

(** The strings a pattern denotes. *)
Inductive matches : regex -> str -> Prop :=
| M_eps : matches Eps []
| M_chr c : matches (Chr c) [c]
| M_cls (p : ascii -> bool) c : p c = true -> matches (Cls p) [c]
| M_cat r1 r2 u v :
    matches r1 u -> matches r2 v -> matches (Cat r1 r2) (u ++ v)
| M_opt_some r u : matches r u -> matches (Opt r) u
| M_opt_none r : matches (Opt r) []
| M_star (p : ascii -> bool) u : forallb p u = true -> matches (Star p) u
| M_plus (p : ascii -> bool) u :
    u <> [] -> forallb p u = true -> matches (Plus p) u.

(** [re.search(r, s)] finds something. *)
Fixpoint has_match (r : regex) (s : str) : bool :=
  match s with
  | [] => false
  | _ :: t =>
      match match_at r s with
      | Some _ => true
      | None => has_match r t
      end
  end.

Definition is_lt (c : ascii) : bool := Ascii.eqb c "<".
Definition is_gt (c : ascii) : bool := Ascii.eqb c ">".

(** No ['<'] of [s] has a ['>'] somewhere after it. *)
Fixpoint no_span (s : str) : bool :=
  match s with
  | [] => true
  | c :: t => if is_lt c then negb (existsb is_gt t) else no_span t
  end.

(** [s] holds no angle bracket at all. *)
Definition no_angle (s : str) : bool :=
  forallb (fun c => negb (is_lt c || is_gt c)) s.

(** No two whitespace characters of [s] are neighbours. *)
Fixpoint no_ws_run (s : str) : bool :=
  match s with
  | a :: ((b :: _) as t) => negb (is_space a && is_space b) && no_ws_run t
  | _ => true
  end.

Definition is_blank (c : ascii) : bool := Ascii.eqb c " ".

(** Every whitespace character of [s] is a blank. *)
Definition only_blanks (s : str) : bool :=
  forallb (fun c => implb (is_space c) (is_blank c)) s.

(** [s] does not start with whitespace. *)
Definition head_ns (s : str) : bool :=
  match s with
  | [] => true
  | c :: _ => negb (is_space c)
  end.

(** [s] does not end with whitespace. *)
Fixpoint last_ns (s : str) : bool :=
  match s with
  | [] => true
  | [c] => negb (is_space c)
  | _ :: t => last_ns t
  end.

(** The whitespace of [s] is made of single blanks, none of them at either
    end. *)
Definition ws_normal (s : str) : bool :=
  only_blanks s && no_ws_run s && head_ns s && last_ns s.

(** The angle brackets of [s], in order. *)
Definition brackets (s : str) : str :=
  filter (fun c => is_lt c || is_gt c) s.

(** [w] put in front of [l] when it is a word. *)
Definition flush (w : str) (l : list str) : list str :=
  match w with
  | [] => l
  | _ => w :: l
  end.

(** The text [clean_transcript_text] leaves alone. *)
Definition stable (s : str) : bool := no_span s && ws_normal s.

(** The number of words of [s]; [inw] tells whether a word is being read. *)
Fixpoint wcount (inw : bool) (s : str) : nat :=
  match s with
  | [] => 0
  | c :: t =>
      if is_space c then wcount false t
      else (if inw then 0 else 1) + wcount true t
  end.

(** A segment as the transcript API documents it: a dict whose ['text'] is
    a string. *)
Definition segment_text (seg : pyval) : option str :=
  match seg with
  | PDict d =>
      match dict_get "text" d with
      | Some (PStr s) => Some s
      | _ => None
      end
  | _ => None
  end.

Definition well_formed (seg : pyval) : Prop :=
  exists text, segment_text seg = Some text.

(** A dict with a string under ['text'] or with no ['text'] at all. *)
Definition text_or_absent (seg : pyval) : Prop :=
  exists d, seg = PDict d /\
    (dict_get "text" d = None \/ exists s, dict_get "text" d = Some (PStr s)).

(** The ['text'] fields of the segments that have one. *)
Fixpoint present_texts (segs : list pyval) : list str :=
  match segs with
  | [] => []
  | seg :: rest =>
      match segment_text seg with
      | Some s => s :: present_texts rest
      | None => present_texts rest
      end
  end.

(** The segment [{"text": s}]. *)
Definition segment_lit (s : string) : pyval :=
  PDict [("text"%string, PStr (lit s))].

Definition segment_of (s : str) : pyval := PDict [("text"%string, PStr s)].

(** Some segment text holds timestamp markup such as [<00:00:11.200>] or
    style markup such as [<c>]. *)
Definition has_markup (segs : list pyval) : Prop :=
  exists sg text,
    In sg segs /\ segment_text sg = Some text
    /\ has_match re_timestamp text || has_match re_style text = true.

(** The cleaner's output for [segs] has no angle bracket and no run of
    whitespace. *)
Definition bracket_free_at (segs : list pyval) : Prop :=
  segs <> [] -> has_markup segs ->
  forall out, clean_transcript_text (PList segs) = Ok out ->
              no_angle out = true /\ no_ws_run out = true.

(** Cleaning the cleaned result of [segs] once more changes nothing. *)
Definition idempotent_at (segs : list pyval) : Prop :=
  forall out, clean_transcript_text (PList segs) = Ok out ->
              clean_transcript_text (PList [segment_of out]) = Ok out.

(** For a text of fewer than 50 words, the fallback states the number of
    words of that text. *)
Definition states_word_count (text : str) (title : option str) : Prop :=
  length (split text) < 50 ->
  fallback_summarize text title = short_notice (length (split text))
  /\ (length (split text) = 10 ->
      contains (lit "only 10 words") (fallback_summarize text title)).

(** For a text of at least 50 words, the fallback returns the report, with
    the number of words of that text and three excerpts of it that are
    three different texts. *)
Definition three_distinct_excerpts (text : str) (title : option str) : Prop :=
  50 <= length (split text) ->
  let words := split text in
  fallback_summarize text title
  = report title (length words) (beginning words) (middle words)
      (ending words)
  /\ beginning words <> middle words
  /\ middle words <> ending words
  /\ beginning words <> ending words.

(** A transcript of ten words, the first of them a tag. *)
Definition ten_words_one_tag : str := lit "<i> a b c d e f g h i".

(** A transcript of fifty different words. *)
Definition fifty_words : str :=
  lit "a1 a2 a3 a4 a5 a6 a7 a8 a9 a10 b1 b2 b3 b4 b5 b6 b7 b8 b9 b10 c1 c2 c3 c4 c5 c6 c7 c8 c9 c10 d1 d2 d3 d4 d5 d6 d7 d8 d9 d10 e1 e2 e3 e4 e5 e6 e7 e8 e9 e10".

(** The same transcript with a tag for first word. *)
Definition fifty_words_one_tag : str :=
  lit "<b> a2 a3 a4 a5 a6 a7 a8 a9 a10 b1 b2 b3 b4 b5 b6 b7 b8 b9 b10 c1 c2 c3 c4 c5 c6 c7 c8 c9 c10 d1 d2 d3 d4 d5 d6 d7 d8 d9 d10 e1 e2 e3 e4 e5 e6 e7 e8 e9 e10".

(** The two URLs the driver requests. *)
Definition transcript_url (a : args) : str :=
  api_url a ++ lit "/api/youtube/transcript/" ++ video_id a.

Definition video_url (a : args) : str :=
  api_url a ++ lit "/api/youtube/video/" ++ video_id a.

(** The transcript API answers, and its answer says [success: false]; the
    status line is fine or makes [raise_for_status] raise its
    [HTTPError]. *)
Definition responds_unsuccessful (W : world) (a : args) : Prop :=
  exists resp d,
    requests_get W (transcript_url a) = Ok resp
    /\ (raise_for_status resp = Ok tt
        \/ exists msg, raise_for_status resp = Raise (RequestException msg))
    /\ json resp = Ok (PDict d)
    /\ dict_get "success" d = Some (PBool false).

(** The transcript fetch succeeds and yields [transcript]. *)
Definition fetched (W : world) (a : args) (transcript : pyval) : Prop :=
  fetch_transcript_try W (transcript_url a) = Ok transcript
  /\ truthy transcript = true.

(** The video details are fetched, or their request fails with an error of
    [requests]; either way the driver gets [title] for the video. *)
Definition titled (W : world) (a : args) (title : pyval) : Prop :=
  exists details,
    (fetch_video_details_try W (video_url a) = Ok details
     \/ (details = PNone
         /\ exists msg,
              fetch_video_details_try W (video_url a)
              = Raise (RequestException msg)))
    /\ title_of_details details = Ok title.

(** The output file, when one is asked for, can be opened. *)
Definition writable (W : world) (a : args) : Prop :=
  forall p, output a = Some p -> p <> [] -> open_w W p = Ok tt.

(** One of the three calls to the agno library raises [e]. *)
Definition llm_raises (W : world) (prompt : str) (e : exn) : Prop :=
  get_llm W = Raise e
  \/ (exists llm,
        get_llm W = Ok llm
        /\ (agno_Agent W (lit "TranscriptSummarizer") llm
              (lit "An agent that summarizes video transcripts") = Raise e
            \/ exists agent,
                 agno_Agent W (lit "TranscriptSummarizer") llm
                   (lit "An agent that summarizes video transcripts")
                 = Ok agent
                 /\ agent_generate W agent prompt = Raise e)).

(** The provider of [agno_summarize] is switched off. *)
Definition disabled (G : globals) : Prop :=
  USING_AGNO G = false \/ llm G = None.

(** The provider is on and its call raises the exception [e]. *)
Definition call_raises (G : globals) (prompt : str) (e : exn) : Prop :=
  USING_AGNO G = true
  /\ exists call, llm G = Some call /\ call prompt = Raise e.

(** Whenever the transcript fetch succeeds, the run exits with status 0. *)
Definition exit_zero_after_fetch (W : world) (a : args) : Prop :=
  (exists transcript, fetched W a transcript) ->
  exit_status (run W a) = 0%Z.

(** A world in which both requests succeed and, the API key not being set,
    the agno library refuses to build its model. *)
Definition world_without_llm : world := {|
  requests_get := fun url =>
    if is_infix (lit "/transcript/") url
    then Ok {| raise_for_status := Ok tt;
               json := Ok (PDict [("success"%string, PBool true);
                                  ("transcript"%string,
                                   PList [segment_lit "hello"])]) |}
    else Ok {| raise_for_status := Ok tt;
               json := Ok (PDict [("items"%string,
                 PList [PDict [("snippet"%string,
                   PDict [("title"%string, PStr (lit "A talk"))])]])]) |};
  os_getenv := fun _ => None;
  model := unit;
  agent := unit;
  agno_AzureOpenAI := fun api_key _ _ _ =>
    match api_key with
    | Some _ => Ok tt
    | None => Raise (LibraryError (lit "missing credentials"))
    end;
  agno_Agent := fun _ _ _ => Ok tt;
  agent_generate := fun _ _ => Ok (lit "a summary");
  open_w := fun _ => Ok tt;
  py_format := fun _ => []
|}.

(** The same world with a working agno library. *)
Definition world_with_llm : world := {|
  requests_get := requests_get world_without_llm;
  os_getenv := fun _ => Some (lit "set");
  model := unit;
  agent := unit;
  agno_AzureOpenAI := agno_AzureOpenAI world_without_llm;
  agno_Agent := fun _ _ _ => Ok tt;
  agent_generate := fun _ _ => Ok (lit "a summary");
  open_w := fun _ => Ok tt;
  py_format := fun _ => []
|}.

(** A world whose transcript API answers [success: false]. *)
Definition world_no_transcript : world := {|
  requests_get := fun _ =>
    Ok {| raise_for_status := Ok tt;
          json := Ok (PDict [("success"%string, PBool false);
                             ("message"%string,
                              PStr (lit "No transcript"))]) |};
  os_getenv := fun _ => Some (lit "set");
  model := unit;
  agent := unit;
  agno_AzureOpenAI := fun _ _ _ _ => Ok tt;
  agno_Agent := fun _ _ _ => Ok tt;
  agent_generate := fun _ _ => Ok (lit "a summary");
  open_w := fun _ => Ok tt;
  py_format := fun _ => []
|}.

Definition some_args : args := {|
  video_id := lit "abc123";
  api_url := lit "http://localhost:3000";
  output := Some (lit "out.json")
|}.

(** A provider whose call raises. *)
Definition failing_provider : globals := {|
  USING_AGNO := true;
  llm := Some (fun _ => Raise (LibraryError (lit "timeout")))
|}.

(** The angle brackets of [s] come in pairs: every ['<'] is closed by a
    ['>'] before the next ['<'], and every ['>'] closes a ['<'].  [opened]
    tells whether a ['<'] waits for its ['>']. *)
Fixpoint paired_from (opened : bool) (s : str) : bool :=
  match s with
  | [] => negb opened
  | c :: t =>
      if is_lt c then negb opened && paired_from true t
      else if is_gt c then opened && paired_from false t
      else paired_from opened t
  end.

Definition paired (s : str) : bool := paired_from false s.

(** A pattern whose matches run from a ['<'] to the first ['>'] after
    it. *)
Definition tight (r : regex) : Prop :=
  forall u, matches r u ->
            exists w, u = "<"%char :: w ++ [">"%char]
                      /\ existsb is_gt w = false.

(* ------------------------------------------------------------------ *)
(** ** scripts/summarize_transcript_with_agnos.py: [load_transcript] and
       [main] *)

(** The files the script reads: [open(path, 'r', encoding='utf-8')] gives
    the content or raises, and [json.load] parses it or raises. *)
Record files : Type := {
  open_r : str -> result str;
  json_load : str -> result pyval
}.

Definition load_transcript (F : files) (path : str) : result pyval :=
  content <- open_r F path ;;
  json_load F content.

Definition usage : str :=
  lit "Usage: python summarize_transcript_with_agnos.py <transcript.json> [video_title]".

(** [main] of this script, on [sys.argv]; [G] holds the globals the import
    of the module has set. *)
Definition agnos_main (F : files) (G : globals) (argv : list str) : io unit :=
  (if length argv <? 2
   then print usage ;; raise (SystemExit 1)
   else
     let transcript_path := nth 1 argv [] in
     let video_title :=
       if 2 <? length argv then Some (nth 2 argv []) else None in
     transcript <- lift (load_transcript F transcript_path) ;;
     summary <- lift (agno_summarize G transcript video_title) ;;
     print summary)%io.

(** The script as a process: the import of the module, then [main]. *)
Definition agnos_run (E : environment) (F : files) (argv : list str)
  : list event * result unit :=
  match module_init E with
  | Ok G => agnos_main F G argv []
  | Raise e => ([], Raise e)
  end.

(* ------------------------------------------------------------------ *)
(** ** Further vocabulary *)

(** The first character of [s] is a ['>']. *)
Definition head_gt (s : str) : bool :=
  match s with
  | [] => false
  | c :: _ => is_gt c
  end.

(** Every ['<'] of [s] has its ['>'] right behind it or none at all: the
    text [<[^>]+>] finds nothing in. *)
Fixpoint untagged (s : str) : bool :=
  match s with
  | [] => true
  | c :: t =>
      (if is_lt c then head_gt t || negb (existsb is_gt t) else true)
      && untagged t
  end.

(** A word: not empty, no whitespace in it. *)
Definition is_word (w : str) : bool :=
  match w with
  | [] => false
  | _ => forallb (fun c => negb (is_space c)) w
  end.

(** A dict. *)
Definition is_dict (v : pyval) : bool :=
  match v with
  | PDict _ => true
  | _ => false
  end.

(** A string. *)
Definition is_str (v : pyval) : bool :=
  match v with
  | PStr _ => true
  | _ => false
  end.

(** The values under ['text'] of the dicts that have the key. *)
Fixpoint present_values (segs : list pyval) : list pyval :=
  match segs with
  | [] => []
  | PDict d :: rest =>
      match dict_get "text" d with
      | Some v => v :: present_values rest
      | None => present_values rest
      end
  | _ :: rest => present_values rest
  end.

(** The three variables the script needs. *)
Definition required_env : list string :=
  ["AZURE_OPENAI_API_KEY"; "AZURE_OPENAI_API_VERSION";
   "AZURE_OPENAI_ENDPOINT"]%string.

(** The files written during a run. *)
Definition dumps (r : list event * result unit) : list event :=
  filter is_dump (fst r).

(** An environment with nothing set, and a folder with one transcript. *)
Definition bare_environment : environment := {|
  import_agno_agent := true;
  import_openai := true;
  import_AzureOpenAI := true;
  environ := fun _ => None;
  AzureOpenAI := fun _ _ _ => Raise (LibraryError (lit "no endpoint"))
|}.

Definition one_file : files := {|
  open_r := fun path =>
    if String.eqb (string_of_list_ascii path) "t.json"
    then Ok (lit "[...]") else Raise OSError;
  json_load := fun _ =>
    Ok (PList [segment_lit "one <b>two</b>"; PDict []; segment_lit "three"])
|}.

(** The request to [url] fails with an error of [requests]: the connection,
    the status or the body. *)
Definition request_fails (W : world) (url : str) (msg : str) : Prop :=
  requests_get W url = Raise (RequestException msg)
  \/ (exists resp,
        requests_get W url = Ok resp
        /\ (raise_for_status resp = Raise (RequestException msg)
            \/ (raise_for_status resp = Ok tt
                /\ json resp = Raise (RequestException msg)))).

(** The request to [url] is answered with the JSON object [d]. *)
Definition answers (W : world) (url : str) (d : list (string * pyval))
  : Prop :=
  exists resp,
    requests_get W url = Ok resp
    /\ raise_for_status resp = Ok tt
    /\ json resp = Ok (PDict d).

(** [bool(d.get(key))] *)
Definition entry_truthy (key : string) (d : list (string * pyval)) : bool :=
  match dict_get key d with
  | Some v => truthy v
  | None => false
  end.

(** A world whose video API is down. *)
Definition world_without_details : world := {|
  requests_get := fun url =>
    if is_infix (lit "/transcript/") url
    then requests_get world_with_llm url
    else Raise (RequestException (lit "connection refused"));
  os_getenv := os_getenv world_with_llm;
  model := unit;
  agent := unit;
  agno_AzureOpenAI := fun _ _ _ _ => Ok tt;
  agno_Agent := fun _ _ _ => Ok tt;
  agent_generate := fun _ _ => Ok (lit "a summary");
  open_w := fun _ => Ok tt;
  py_format := fun _ => []
|}.

(** A world whose video API knows no such video. *)
Definition world_without_items : world := {|
  requests_get := fun url =>
    if is_infix (lit "/transcript/") url
    then requests_get world_with_llm url
    else Ok {| raise_for_status := Ok tt;
               json := Ok (PDict [("items"%string, PList [])]) |};
  os_getenv := os_getenv world_with_llm;
  model := unit;
  agent := unit;
  agno_AzureOpenAI := fun _ _ _ _ => Ok tt;
  agno_Agent := fun _ _ _ => Ok tt;
  agent_generate := fun _ _ => Ok (lit "a summary");
  open_w := fun _ => Ok tt;
  py_format := fun _ => []
|}.

(** A world whose transcript API answers with [transcript] (and answers the
    video request like [world_with_llm]), whose agno library is broken and
    whose files cannot be opened when [locked]. *)
Definition world_of (transcript : pyval) (locked : bool) : world := {|
  requests_get := fun url =>
    if is_infix (lit "/transcript/") url
    then Ok {| raise_for_status := Ok tt;
               json := Ok (PDict [("success"%string, PBool true);
                                  ("transcript"%string, transcript)]) |}
    else requests_get world_with_llm url;
  os_getenv := fun _ => None;
  model := unit;
  agent := unit;
  agno_AzureOpenAI := fun _ _ _ _ =>
    if locked then Ok tt else Raise (LibraryError (lit "no model"));
  agno_Agent := fun _ _ _ => Ok tt;
  agent_generate := fun _ _ => Ok (lit "a summary");
  open_w := fun _ => if locked then Raise OSError else Ok tt;
  py_format := fun _ => []
|}.

(** A world without network. *)
Definition world_offline : world := {|
  requests_get := fun _ => Raise (RequestException (lit "connection refused"));
  os_getenv := fun _ => Some (lit "set");
  model := unit;
  agent := unit;
  agno_AzureOpenAI := fun _ _ _ _ => Ok tt;
  agno_Agent := fun _ _ _ => Ok tt;
  agent_generate := fun _ _ => Ok (lit "a summary");
  open_w := fun _ => Ok tt;
  py_format := fun _ => []
|}.

(** A client that answers every request with the API version it was built
    for, and an environment in which everything is installed and set. *)
Definition echo_client (version : str) : client := {|
  chat_completions_create := fun _ _ _ => Ok version
|}.

Definition configured_environment : environment := {|
  import_agno_agent := true;
  import_openai := true;
  import_AzureOpenAI := true;
  environ := fun name =>
    if String.eqb name "AZURE_OPENAI_API_VERSION"
    then Some (lit "2023-05-15")
    else Some (lit "set");
  AzureOpenAI := fun _ version _ => Ok (echo_client version)
|}.

(** The part of a segment: what the cleaner returns on that segment alone,
    which is the text of the segment after the four substitutions and the
    [strip]. *)
Definition part_of (sg : pyval) (p : str) : Prop :=
  clean_transcript_text (PList [sg]) = Ok p
  /\ exists text, segment_text sg = Some text /\ p = clean_segment_text text.

(* ================================================================== *)
(** * Properties *)

(** ** Characters *)

Lemma lt_not_space : forall c, is_lt c = true -> is_space c = false.
Proof.
  intros c H. apply Ascii.eqb_eq in H. subst c. reflexivity.
Qed.

Lemma gt_not_space : forall c, is_gt c = true -> is_space c = false.
Proof.
  intros c H. apply Ascii.eqb_eq in H. subst c. reflexivity.
Qed.

Lemma not_gt_is_gt : forall c, not_gt c = negb (is_gt c).
Proof. reflexivity. Qed.

(** ** The matcher agrees with the patterns' meaning *)

Lemma star_cls_sound : forall p s k x,
  star_cls p s k = Some x ->
  exists u t, s = u ++ t /\ forallb p u = true /\ k t = Some x.
Proof.
  intros p s k x. induction s as [|c s IH]; simpl; intros H.
  - exists [], []. auto.
  - destruct (p c) eqn:Hc.
    + destruct (star_cls p s k) as [y|] eqn:Hs.
      * inversion H; subst y.
        destruct (IH eq_refl) as (u & t & -> & Hu & Hk).
        exists (c :: u), t. simpl. rewrite Hc, Hu. auto.
      * exists [], (c :: s). auto.
    + exists [], (c :: s). auto.
Qed.

Lemma star_cls_complete : forall p s k,
  star_cls p s k = None ->
  forall u t, s = u ++ t -> forallb p u = true -> k t = None.
Proof.
  intros p s k. induction s as [|c s IH]; simpl; intros H u t E Hu.
  - destruct u; [simpl in E; subst t; exact H | discriminate].
  - destruct u as [|a u]; simpl in E.
    + subst t. destruct (p c); [|exact H].
      destruct (star_cls p s k); [discriminate | exact H].
    + inversion E; subst a s. simpl in Hu.
      apply andb_true_iff in Hu as [Hc Hu]. rewrite Hc in H.
      destruct (star_cls p (u ++ t) k) eqn:Hs; [discriminate|].
      now apply (IH eq_refl u t).
Qed.

Lemma rmatch_sound : forall r s k x,
  rmatch r s k = Some x ->
  exists u t, s = u ++ t /\ matches r u /\ k t = Some x.
Proof.
  induction r as [|c|p|r1 IH1 r2 IH2|r IH|p|p]; simpl; intros s k x H.
  - exists [], s. repeat split; [constructor | exact H].
  - destruct s as [|a t]; [discriminate|].
    destruct (Ascii.eqb a c) eqn:E; [|discriminate].
    apply Ascii.eqb_eq in E. subst a.
    exists [c], t. repeat split; [constructor | exact H].
  - destruct s as [|a t]; [discriminate|].
    destruct (p a) eqn:E; [|discriminate].
    exists [a], t. repeat split; [now constructor | exact H].
  - apply IH1 in H as (u1 & t1 & -> & M1 & H).
    apply IH2 in H as (u2 & t2 & -> & M2 & H).
    exists (u1 ++ u2), t2. rewrite app_assoc.
    repeat split; [now constructor | exact H].
  - destruct (rmatch r s k) as [y|] eqn:E.
    + inversion H; subst y.
      apply IH in E as (u & t & -> & M & Hk).
      exists u, t. repeat split; [now apply M_opt_some | exact Hk].
    + exists [], s. repeat split; [apply M_opt_none | exact H].
  - apply star_cls_sound in H as (u & t & -> & Hu & Hk).
    exists u, t. repeat split; [now constructor | exact Hk].
  - destruct s as [|a s]; [discriminate|].
    destruct (p a) eqn:E; [|discriminate].
    apply star_cls_sound in H as (u & t & -> & Hu & Hk).
    exists (a :: u), t. repeat split; [|exact Hk].
    constructor; [discriminate | simpl; now rewrite E, Hu].
Qed.

Lemma rmatch_complete : forall r s k,
  rmatch r s k = None ->
  forall u t, s = u ++ t -> matches r u -> k t = None.
Proof.
  induction r as [|c|p|r1 IH1 r2 IH2|r IH|p|p]; simpl;
    intros s k H u t E M; inversion M; subst.
  - exact H.
  - simpl in H. now rewrite Ascii.eqb_refl in H.
  - simpl in H. match goal with Hc : p _ = true |- _ => now rewrite Hc in H end.
  - rewrite <- app_assoc in H.
    eapply IH2; [|reflexivity|eassumption].
    apply (IH1 _ _ H u0 (v ++ t)); [reflexivity | assumption].
  - destruct (rmatch r (u ++ t) k) eqn:E; [discriminate|].
    eapply IH; [exact E | reflexivity | assumption].
  - simpl in H. destruct (rmatch r t k); [discriminate | exact H].
  - eapply star_cls_complete; [exact H | reflexivity | assumption].
  - destruct u as [|a u]; [congruence|]. simpl in *.
    match goal with Hu : _ && _ = true |- _ =>
      apply andb_true_iff in Hu as [Ha Hu] end.
    rewrite Ha in H.
    eapply star_cls_complete; [exact H | reflexivity | assumption].
Qed.

Lemma match_at_some : forall r s rest,
  match_at r s = Some rest -> exists u, s = u ++ rest /\ matches r u.
Proof.
  unfold match_at. intros r s rest H.
  apply rmatch_sound in H as (u & t & -> & M & Hk).
  inversion Hk; subst. now exists u.
Qed.

Lemma match_at_none : forall r s,
  match_at r s = None -> forall u t, s = u ++ t -> ~ matches r u.
Proof.
  unfold match_at. intros r s H u t E M.
  now pose proof (rmatch_complete _ _ _ H _ _ E M).
Qed.

Lemma match_at_found : forall r u t,
  matches r u -> exists rest, match_at r (u ++ t) = Some rest.
Proof.
  intros r u t M. destruct (match_at r (u ++ t)) as [rest|] eqn:E.
  - now exists rest.
  - now elim (match_at_none _ _ E u t eq_refl).
Qed.

(** ** [re.sub] step by step *)

Section Substitution.

Variables (r : regex) (repl : str).

(** The pattern does not match the empty string. *)
Hypothesis nonempty : ~ matches r [].

Lemma sub_from_skipn : forall s n,
  sub_from r repl n s = sub_from r repl 0 (skipn n s).
Proof.
  induction s as [|c t IH]; intros [|n]; simpl; try reflexivity.
  apply IH.
Qed.

Lemma re_sub_keep : forall c t,
  match_at r (c :: t) = None ->
  re_sub r repl (c :: t) = c :: re_sub r repl t.
Proof.
  intros c t H. unfold re_sub. simpl. unfold match_len. now rewrite H.
Qed.

Lemma re_sub_replace : forall s rest,
  match_at r s = Some rest ->
  re_sub r repl s = repl ++ re_sub r repl rest.
Proof.
  intros s rest H.
  destruct (match_at_some _ _ _ H) as (u & -> & M).
  destruct u as [|a u]; [contradiction|].
  simpl in H. unfold re_sub. simpl. unfold match_len. rewrite H.
  replace (length (a :: u ++ rest) - length rest) with (S (length u))
    by (change (length (a :: u ++ rest)) with (S (length (u ++ rest)));
        rewrite length_app; lia).
  rewrite sub_from_skipn. f_equal. f_equal.
  rewrite skipn_app, skipn_all, Nat.sub_diag. reflexivity.
Qed.

(** Reasoning on [re.sub] follows the scan: nothing left, a character
    kept, a match replaced. *)
Lemma re_sub_ind : forall P : str -> str -> Prop,
  P [] [] ->
  (forall c t,
      match_at r (c :: t) = None ->
      P t (re_sub r repl t) -> P (c :: t) (c :: re_sub r repl t)) ->
  (forall u rest,
      u <> [] -> matches r u -> match_at r (u ++ rest) = Some rest ->
      P rest (re_sub r repl rest) ->
      P (u ++ rest) (repl ++ re_sub r repl rest)) ->
  forall s, P s (re_sub r repl s).
Proof.
  intros P Hnil Hkeep Hrep s.
  remember (length s) as n eqn:Hn. revert s Hn.
  induction n as [n IH] using lt_wf_ind. intros s Hn.
  destruct s as [|c t]; [exact Hnil|].
  destruct (match_at r (c :: t)) as [rest|] eqn:E.
  - rewrite (re_sub_replace _ _ E).
    destruct (match_at_some _ _ _ E) as (u & Es & M).
    assert (Hu : u <> []) by (intros ->; contradiction).
    rewrite Es in *. apply Hrep; auto.
    apply (IH (length rest)); [|reflexivity].
    subst n. rewrite length_app. destruct u; [congruence | simpl; lia].
  - rewrite (re_sub_keep _ _ E). apply Hkeep; auto.
    apply (IH (length t)); [subst n; simpl; lia | reflexivity].
Qed.

(** Where the pattern matches nowhere, the text is left as it is. *)
Lemma re_sub_no_match : forall s,
  has_match r s = false -> re_sub r repl s = s.
Proof.
  induction s as [|c t IH]; simpl; intros H; [reflexivity|].
  destruct (match_at r (c :: t)) eqn:E; [discriminate|].
  rewrite (re_sub_keep _ _ E), IH; auto.
Qed.

End Substitution.

(** ** The patterns *)

Ltac invert_matches :=
  repeat match goal with
  | H : matches Eps _ |- _ => inversion H; subst; clear H
  | H : matches (Chr _) _ |- _ => inversion H; subst; clear H
  | H : matches (Cls _) _ |- _ => inversion H; subst; clear H
  | H : matches (Cat _ _) _ |- _ => inversion H; subst; clear H
  | H : matches (Opt _) _ |- _ => inversion H; subst; clear H
  | H : matches (Star _) _ |- _ => inversion H; subst; clear H
  | H : matches (Plus _) _ |- _ => inversion H; subst; clear H
  end.

Lemma existsb_gt_last : forall w, existsb is_gt (w ++ [">"%char]) = true.
Proof.
  intros w. rewrite existsb_app. simpl. apply orb_true_r.
Qed.

Lemma angle_shape : forall u,
  matches re_angle u ->
  exists w, u = "<"%char :: w ++ [">"%char] /\ forallb not_gt w = true.
Proof.
  unfold re_angle. intros u M. invert_matches. simpl.
  eexists; split; [reflexivity | assumption].
Qed.

Lemma tag_shape : forall u,
  matches re_tag u ->
  exists w, w <> [] /\ u = "<"%char :: w ++ [">"%char]
            /\ forallb not_gt w = true.
Proof.
  unfold re_tag. intros u M. invert_matches. simpl.
  eexists; repeat split; [eassumption | assumption].
Qed.

Lemma spaces_shape : forall u,
  matches re_spaces u -> u <> [] /\ forallb is_space u = true.
Proof.
  unfold re_spaces. intros u M. invert_matches. auto.
Qed.

Lemma angle_intro : forall w,
  forallb not_gt w = true -> matches re_angle ("<"%char :: w ++ [">"%char]).
Proof.
  intros w H. unfold re_angle.
  change ("<"%char :: w ++ [">"%char]) with (["<"%char] ++ w ++ [">"%char]).
  repeat constructor. exact H.
Qed.

Lemma not_gt_no_gt : forall w,
  forallb not_gt w = true -> existsb is_gt w = false.
Proof.
  induction w as [|c w IH]; simpl; intros H; [reflexivity|].
  apply andb_true_iff in H as [Hc Hw]. rewrite not_gt_is_gt in Hc.
  apply negb_true_iff in Hc. now rewrite Hc, IH.
Qed.

Lemma lower_not_gt : forall c, is_lower c = true -> is_gt c = false.
Proof.
  intros c H. destruct (is_gt c) eqn:G; [|reflexivity].
  apply Ascii.eqb_eq in G. subst c. discriminate.
Qed.

Lemma digit_not_gt : forall c, is_digit c = true -> is_gt c = false.
Proof.
  intros c H. destruct (is_gt c) eqn:G; [|reflexivity].
  apply Ascii.eqb_eq in G. subst c. discriminate.
Qed.

Lemma angle_tight : tight re_angle.
Proof.
  intros u M. apply angle_shape in M as (w & -> & H).
  exists w. split; [reflexivity | now apply not_gt_no_gt].
Qed.

Lemma tag_tight : tight re_tag.
Proof.
  intros u M. apply tag_shape in M as (w & _ & -> & H).
  exists w. split; [reflexivity | now apply not_gt_no_gt].
Qed.

Lemma style_tight : tight re_style.
Proof.
  unfold re_style. intros u M. invert_matches.
  - match goal with
    | L : is_lower ?l = true, N : forallb not_gt ?w = true |- _ =>
        exists ("/"%char :: l :: w); split; [reflexivity|];
        simpl; now rewrite (lower_not_gt _ L), (not_gt_no_gt _ N)
    end.
  - match goal with
    | L : is_lower ?l = true, N : forallb not_gt ?w = true |- _ =>
        exists (l :: w); split; [reflexivity|];
        simpl; now rewrite (lower_not_gt _ L), (not_gt_no_gt _ N)
    end.
Qed.

Lemma timestamp_tight : tight re_timestamp.
Proof.
  unfold re_timestamp. simpl times. intros u M. invert_matches. simpl.
  match goal with
  | |- exists w, _ :: ?l = _ /\ _ => exists (removelast l)
  end.
  split; [reflexivity|]. simpl.
  repeat match goal with
  | D : is_digit ?c = true |- _ => rewrite (digit_not_gt _ D); clear D
  end.
  reflexivity.
Qed.

Lemma tight_nonempty : forall r, tight r -> ~ matches r [].
Proof.
  intros r T M. destruct (T _ M) as (w & E & _). discriminate.
Qed.

Lemma spaces_nonempty : ~ matches re_spaces [].
Proof.
  intros M. apply spaces_shape in M as [H _]. now apply H.
Qed.

(** The matcher on a few texts. *)

Example style_needs_letter :
  match_at re_style (lit "</>") = None
  /\ match_at re_style (lit "</c>x") = Some (lit "x")
  /\ match_at re_style (lit "<C>x") = None.
Proof. repeat split. Qed.

Example angle_takes_first_close :
  match_at re_angle (lit "<a b>c>d") = Some (lit "c>d")
  /\ match_at re_angle (lit "<>x") = Some (lit "x")
  /\ match_at re_angle (lit "<a b") = None.
Proof. repeat split. Qed.

Example tag_needs_content :
  match_at re_tag (lit "<>x") = None
  /\ match_at re_tag (lit "<b>x") = Some (lit "x").
Proof. repeat split. Qed.

Example timestamp_needs_digits :
  match_at re_timestamp (lit "<00:00:11.200>x") = Some (lit "x")
  /\ match_at re_timestamp (lit "<0:00:11.200>x") = None.
Proof. repeat split. Qed.

Example spaces_take_the_run :
  match_at re_spaces (" "%char :: ascii_of_nat 9 :: nl :: lit "x")
  = Some (lit "x").
Proof. reflexivity. Qed.

(** ** Spans of angle brackets *)

Lemma first_gt : forall t,
  existsb is_gt t = true ->
  exists w post, t = w ++ ">"%char :: post /\ forallb not_gt w = true.
Proof.
  induction t as [|c t IH]; simpl; intros H; [discriminate|].
  destruct (is_gt c) eqn:Hc.
  - apply Ascii.eqb_eq in Hc. subst c. now exists [], t.
  - destruct (IH H) as (w & post & -> & Hw).
    exists (c :: w), post. simpl. rewrite not_gt_is_gt, Hc, Hw. auto.
Qed.

Lemma angle_found : forall t,
  existsb is_gt t = true ->
  exists rest, match_at re_angle ("<"%char :: t) = Some rest.
Proof.
  intros t H. destruct (first_gt _ H) as (w & post & -> & Hw).
  replace ("<"%char :: w ++ ">"%char :: post)
    with (("<"%char :: w ++ [">"%char]) ++ post)
    by (simpl; now rewrite <- app_assoc).
  apply match_at_found, angle_intro, Hw.
Qed.

Lemma no_gt_no_span : forall s, existsb is_gt s = false -> no_span s = true.
Proof.
  induction s as [|c t IH]; simpl; intros H; [reflexivity|].
  apply orb_false_iff in H as [_ H].
  destruct (is_lt c); [now rewrite H | auto].
Qed.

Lemma no_span_tail : forall c t, no_span (c :: t) = true -> no_span t = true.
Proof.
  simpl. intros c t H. destruct (is_lt c); [|exact H].
  apply no_gt_no_span. now apply negb_true_iff in H.
Qed.

Lemma span_found : forall w rest,
  no_span (("<"%char :: w ++ [">"%char]) ++ rest) = false.
Proof.
  intros w rest. simpl. now rewrite existsb_app, existsb_gt_last.
Qed.

(** A text without a span has no match of a tight pattern. *)
Lemma no_span_no_match : forall r, tight r ->
  forall s, no_span s = true -> has_match r s = false.
Proof.
  intros r T. induction s as [|c t IH]; intros H; [reflexivity|].
  simpl. destruct (match_at r (c :: t)) as [rest|] eqn:E.
  - destruct (match_at_some _ _ _ E) as (u & Es & M).
    destruct (T _ M) as (w & -> & _).
    rewrite Es, span_found in H. discriminate.
  - apply IH. eapply no_span_tail, H.
Qed.

(** Deleting characters creates no ['>']. *)
Lemma re_sub_delete_gt : forall r, ~ matches r [] ->
  forall s, existsb is_gt s = false ->
  existsb is_gt (re_sub r [] s) = false.
Proof.
  intros r Hne s. apply (re_sub_ind r [] Hne
    (fun s out => existsb is_gt s = false -> existsb is_gt out = false)).
  - auto.
  - simpl. intros c t _ IH H. apply orb_false_iff in H as [Hc Ht].
    now rewrite Hc, IH.
  - simpl. intros u rest _ _ _ IH H. rewrite existsb_app in H.
    apply orb_false_iff in H as [_ H]. auto.
Qed.

(** After [<[^>]*>] is removed, no span is left. *)
Lemma angle_removed : forall s, no_span (re_sub re_angle [] s) = true.
Proof.
  pose proof (tight_nonempty _ angle_tight) as Hne.
  apply (re_sub_ind re_angle [] Hne (fun _ out => no_span out = true)).
  - reflexivity.
  - intros c t E IH. simpl. destruct (is_lt c) eqn:Hc; [|exact IH].
    apply Ascii.eqb_eq in Hc. subst c.
    destruct (existsb is_gt t) eqn:Ht.
    + destruct (angle_found _ Ht) as (rest & E'). congruence.
    + now rewrite re_sub_delete_gt.
  - intros u rest _ _ _ IH. exact IH.
Qed.

(** ** Whitespace *)

Lemma space_not_bracket : forall c,
  is_space c = true -> is_lt c || is_gt c = false.
Proof.
  intros c H. destruct (is_lt c) eqn:L.
  - apply lt_not_space in L. congruence.
  - destruct (is_gt c) eqn:G; [|reflexivity].
    apply gt_not_space in G. congruence.
Qed.

Lemma brackets_cons : forall c t,
  brackets (c :: t)
  = if is_lt c || is_gt c then c :: brackets t else brackets t.
Proof. reflexivity. Qed.

Lemma brackets_app : forall a b, brackets (a ++ b) = brackets a ++ brackets b.
Proof. intros a b. apply filter_app. Qed.

Lemma spaces_no_brackets : forall u,
  forallb is_space u = true -> brackets u = [].
Proof.
  induction u as [|c u IH]; simpl; intros H; [reflexivity|].
  apply andb_true_iff in H as [Hc Hu].
  rewrite (space_not_bracket _ Hc). auto.
Qed.

(** What [rstrip] and [lstrip] cut off is whitespace. *)
Lemma rstrip_prefix : forall s,
  exists ws, s = rstrip s ++ ws /\ forallb is_space ws = true.
Proof.
  induction s as [|c t (ws & E & H)]; [now exists []|].
  simpl. destruct (rstrip t) as [|a r] eqn:R.
  - destruct (is_space c) eqn:Hc.
    + exists (c :: t). simpl in E. subst ws.
      split; [reflexivity | simpl; rewrite Hc; exact H].
    + exists ws. split; [simpl; f_equal; exact E | exact H].
  - exists ws. split; [simpl; f_equal; exact E | exact H].
Qed.

Lemma lstrip_suffix : forall s,
  exists ws, s = ws ++ lstrip s /\ forallb is_space ws = true.
Proof.
  induction s as [|c t (ws & E & H)]; [now exists []|].
  simpl. destruct (is_space c) eqn:Hc.
  - exists (c :: ws). simpl. now rewrite Hc, <- E.
  - now exists [].
Qed.

Lemma head_ns_lstrip : forall s, head_ns (lstrip s) = true.
Proof.
  induction s as [|c t IH]; [reflexivity|].
  simpl. destruct (is_space c) eqn:Hc; [exact IH|].
  simpl. now rewrite Hc.
Qed.

Lemma last_ns_rstrip : forall s, last_ns (rstrip s) = true.
Proof.
  induction s as [|c t IH]; [reflexivity|].
  simpl. destruct (rstrip t) as [|a r] eqn:R.
  - destruct (is_space c) eqn:Hc; simpl; [reflexivity | now rewrite Hc].
  - exact IH.
Qed.

Lemma last_ns_app : forall a b, b <> [] -> last_ns (a ++ b) = last_ns b.
Proof.
  induction a as [|c a IH]; intros b Hb; [reflexivity|].
  simpl. rewrite IH by exact Hb.
  destruct (a ++ b) eqn:E; [|reflexivity].
  apply app_eq_nil in E as [_ E]. contradiction.
Qed.

Lemma last_ns_lstrip : forall s, last_ns s = true -> last_ns (lstrip s) = true.
Proof.
  intros s H. destruct (lstrip_suffix s) as (ws & E & _).
  destruct (lstrip s) as [|a r] eqn:L; [reflexivity|].
  rewrite E, last_ns_app in H; [exact H | discriminate].
Qed.

Lemma no_ws_run_cons : forall a b t,
  no_ws_run (a :: b :: t)
  = negb (is_space a && is_space b) && no_ws_run (b :: t).
Proof. reflexivity. Qed.

Lemma no_ws_run_tail : forall c t,
  no_ws_run (c :: t) = true -> no_ws_run t = true.
Proof.
  intros c [|d t] H; [reflexivity|].
  simpl in H. now apply andb_true_iff in H as [_ H].
Qed.

Lemma no_ws_run_app_r : forall a b,
  no_ws_run (a ++ b) = true -> no_ws_run b = true.
Proof.
  induction a as [|c a IH]; intros b H; [exact H|].
  apply IH. eapply no_ws_run_tail, H.
Qed.

Lemma no_ws_run_app_l : forall a b,
  no_ws_run (a ++ b) = true -> no_ws_run a = true.
Proof.
  induction a as [|c a IH]; intros b H; [reflexivity|].
  destruct a as [|d a]; [reflexivity|].
  simpl in *. apply andb_true_iff in H as [H1 H2].
  rewrite H1. simpl. exact (IH b H2).
Qed.

Lemma head_ns_lstrip_id : forall s, head_ns s = true -> lstrip s = s.
Proof.
  intros [|c t] H; [reflexivity|].
  simpl in *. now apply negb_true_iff in H as ->.
Qed.

Lemma last_ns_rstrip_id : forall s, last_ns s = true -> rstrip s = s.
Proof.
  induction s as [|c t IH]; intros H; [reflexivity|].
  simpl. destruct t as [|d t].
  - simpl in *. now apply negb_true_iff in H as ->.
  - rewrite IH by exact H. reflexivity.
Qed.

(** The matcher on [\s+]: it takes the whole run. *)

Lemma star_cls_greedy : forall p s,
  exists rest, star_cls p s Some = Some rest
               /\ match rest with [] => True | d :: _ => p d = false end.
Proof.
  intros p. induction s as [|c t (rest & E & H)]; simpl.
  - now exists [].
  - destruct (p c) eqn:Hc.
    + rewrite E. now exists rest.
    + exists (c :: t). auto.
Qed.

Lemma spaces_at_space : forall c t,
  is_space c = true ->
  exists rest, match_at re_spaces (c :: t) = Some rest /\ head_ns rest = true.
Proof.
  intros c t Hc. unfold match_at, re_spaces. simpl. rewrite Hc.
  destruct (star_cls_greedy is_space t) as (rest & E & H).
  exists rest. split; [exact E|].
  destruct rest; simpl; [reflexivity | now rewrite H].
Qed.

Lemma spaces_at_other : forall c t,
  is_space c = false -> match_at re_spaces (c :: t) = None.
Proof.
  intros c t Hc. unfold match_at, re_spaces. simpl. now rewrite Hc.
Qed.

Lemma spaces_at_blank : forall c t,
  is_space c = true -> head_ns t = true ->
  match_at re_spaces (c :: t) = Some t.
Proof.
  intros c t Hc Ht. unfold match_at, re_spaces. simpl. rewrite Hc.
  destruct t as [|d t]; [reflexivity|].
  simpl in *. apply negb_true_iff in Ht. now rewrite Ht.
Qed.

Lemma spaces_none : forall c t,
  match_at re_spaces (c :: t) = None -> is_space c = false.
Proof.
  intros c t E. destruct (is_space c) eqn:Hc; [|reflexivity].
  destruct (spaces_at_space c t Hc) as (rest & E' & _). congruence.
Qed.

Lemma spaces_some : forall s rest,
  match_at re_spaces s = Some rest -> head_ns rest = true.
Proof.
  intros [|c t] rest E; [discriminate|].
  destruct (is_space c) eqn:Hc.
  - destruct (spaces_at_space c t Hc) as (rest' & E' & H). congruence.
  - rewrite spaces_at_other in E by exact Hc. discriminate.
Qed.

(** The result of [re.sub(r'\s+', ' ', s)]. *)

Lemma spaces_only_blanks : forall s,
  only_blanks (re_sub re_spaces (lit " ") s) = true.
Proof.
  apply (re_sub_ind re_spaces (lit " ") spaces_nonempty
           (fun _ out => only_blanks out = true)).
  - reflexivity.
  - intros c t E IH. apply spaces_none in E.
    unfold only_blanks in *. cbn [forallb]. now rewrite E, IH.
  - intros u rest _ _ _ IH. exact IH.
Qed.

Lemma spaces_no_ws_run : forall s,
  no_ws_run (re_sub re_spaces (lit " ") s) = true
  /\ (head_ns s = true -> head_ns (re_sub re_spaces (lit " ") s) = true).
Proof.
  apply (re_sub_ind re_spaces (lit " ") spaces_nonempty
           (fun s out => no_ws_run out = true
                         /\ (head_ns s = true -> head_ns out = true))).
  - auto.
  - intros c t E [IH _]. apply spaces_none in E. split.
    + destruct (re_sub re_spaces (lit " ") t) as [|d o]; [reflexivity|].
      now rewrite no_ws_run_cons, E, IH.
    + intros _. simpl. now rewrite E.
  - intros u rest Hu M E [IH1 IH2]. split.
    + apply spaces_some in E. specialize (IH2 E).
      destruct (re_sub re_spaces (lit " ") rest) as [|d o]; [reflexivity|].
      change (lit " " ++ d :: o) with (" "%char :: d :: o).
      simpl in IH2. apply negb_true_iff in IH2.
      now rewrite no_ws_run_cons, IH1, IH2.
    + apply spaces_shape in M as [_ M].
      destruct u as [|a u]; [congruence|]. simpl in *.
      apply andb_true_iff in M as [Ha _]. rewrite Ha. discriminate.
Qed.

Lemma spaces_brackets : forall s,
  brackets (re_sub re_spaces (lit " ") s) = brackets s.
Proof.
  apply (re_sub_ind re_spaces (lit " ") spaces_nonempty
           (fun s out => brackets out = brackets s)).
  - reflexivity.
  - intros c t _ IH. now rewrite !brackets_cons, IH.
  - intros u rest _ M _ IH. apply spaces_shape in M as [_ M].
    now rewrite !brackets_app, IH, (spaces_no_brackets _ M).
Qed.

(** A text that is already normal is left alone. *)
Lemma spaces_id : forall s,
  only_blanks s = true -> no_ws_run s = true ->
  re_sub re_spaces (lit " ") s = s.
Proof.
  induction s as [|c t IH]; intros Hb Hr; [reflexivity|].
  unfold only_blanks in Hb. simpl in Hb.
  apply andb_true_iff in Hb as [Hc Hb].
  pose proof (no_ws_run_tail _ _ Hr) as Ht.
  destruct (is_space c) eqn:Sc.
  - simpl in Hc. apply Ascii.eqb_eq in Hc. subst c.
    assert (Hh : head_ns t = true).
    { destruct t as [|d t]; [reflexivity|]. simpl in Hr.
      now apply andb_true_iff in Hr as [Hr _]. }
    rewrite (re_sub_replace _ _ spaces_nonempty _ _
               (spaces_at_blank _ _ Sc Hh)).
    now rewrite IH.
  - rewrite (re_sub_keep _ _ _ _ (spaces_at_other _ _ Sc)).
    now rewrite IH.
Qed.

(** ** The cleaned text of one segment *)

Lemma brackets_gt : forall s, existsb is_gt (brackets s) = existsb is_gt s.
Proof.
  induction s as [|c t IH]; [reflexivity|].
  rewrite brackets_cons. simpl.
  destruct (is_lt c) eqn:L, (is_gt c) eqn:G; simpl; rewrite ?G; auto.
Qed.

Lemma no_span_brackets : forall s, no_span (brackets s) = no_span s.
Proof.
  induction s as [|c t IH]; [reflexivity|].
  rewrite brackets_cons. simpl.
  destruct (is_lt c) eqn:L; simpl.
  - now rewrite L, brackets_gt.
  - destruct (is_gt c) eqn:G; simpl; rewrite ?L; exact IH.
Qed.

Lemma rstrip_brackets : forall s, brackets (rstrip s) = brackets s.
Proof.
  intros s. destruct (rstrip_prefix s) as (ws & E & H).
  transitivity (brackets (rstrip s ++ ws)); [|now rewrite <- E].
  now rewrite brackets_app, (spaces_no_brackets _ H), app_nil_r.
Qed.

Lemma lstrip_brackets : forall s, brackets (lstrip s) = brackets s.
Proof.
  intros s. destruct (lstrip_suffix s) as (ws & E & H).
  transitivity (brackets (ws ++ lstrip s)); [|now rewrite <- E].
  now rewrite brackets_app, (spaces_no_brackets _ H).
Qed.

Lemma strip_brackets : forall s, brackets (strip s) = brackets s.
Proof.
  intros s. unfold strip. now rewrite lstrip_brackets, rstrip_brackets.
Qed.

Lemma only_blanks_app : forall a b,
  only_blanks (a ++ b) = only_blanks a && only_blanks b.
Proof. intros a b. apply forallb_app. Qed.

(** [strip] turns collapsed whitespace into normal whitespace. *)
Lemma strip_ws_normal : forall s,
  only_blanks s = true -> no_ws_run s = true -> ws_normal (strip s) = true.
Proof.
  intros s Hb Hr. unfold strip.
  destruct (rstrip_prefix s) as (w1 & E1 & _).
  destruct (lstrip_suffix (rstrip s)) as (w2 & E2 & _).
  rewrite E1, E2 in Hb, Hr.
  rewrite !only_blanks_app in Hb.
  apply andb_true_iff in Hb as [Hb _]. apply andb_true_iff in Hb as [_ Hb].
  apply no_ws_run_app_l, no_ws_run_app_r in Hr.
  unfold ws_normal.
  now rewrite Hb, Hr, head_ns_lstrip, last_ns_lstrip by apply last_ns_rstrip.
Qed.

Lemma clean_no_span : forall text, no_span (clean_segment_text text) = true.
Proof.
  intros text. unfold clean_segment_text.
  rewrite <- no_span_brackets, strip_brackets, spaces_brackets.
  rewrite no_span_brackets. apply angle_removed.
Qed.

Lemma clean_ws_normal : forall text, ws_normal (clean_segment_text text) = true.
Proof.
  intros text. unfold clean_segment_text.
  apply strip_ws_normal; [apply spaces_only_blanks | apply spaces_no_ws_run].
Qed.

Lemma clean_is_stable : forall text, stable (clean_segment_text text) = true.
Proof.
  intros text. unfold stable. now rewrite clean_no_span, clean_ws_normal.
Qed.

Lemma stable_is_clean : forall s, stable s = true -> clean_segment_text s = s.
Proof.
  intros s H. unfold stable, ws_normal in H.
  apply andb_true_iff in H as [Hs H]. apply andb_true_iff in H as [H Hl].
  apply andb_true_iff in H as [H Hh]. apply andb_true_iff in H as [Hb Hr].
  unfold clean_segment_text.
  rewrite (re_sub_no_match re_timestamp [] s)
    by (apply no_span_no_match; [apply timestamp_tight | assumption]).
  rewrite (re_sub_no_match re_style [] s)
    by (apply no_span_no_match; [apply style_tight | assumption]).
  rewrite (re_sub_no_match re_angle [] s)
    by (apply no_span_no_match; [apply angle_tight | assumption]).
  rewrite spaces_id by assumption.
  unfold strip.
  rewrite (last_ns_rstrip_id s) by assumption.
  now apply head_ns_lstrip_id.
Qed.

(** ** Joining the cleaned segments *)

Lemma join_cons : forall sep x y l,
  join sep (x :: y :: l) = x ++ sep ++ join sep (y :: l).
Proof. reflexivity. Qed.

Lemma join_nonempty : forall sep x l, x <> [] -> join sep (x :: l) <> [].
Proof.
  intros sep x [|y l] Hx; [exact Hx|].
  rewrite join_cons. destruct x; [congruence | discriminate].
Qed.

Lemma only_blanks_join : forall parts,
  Forall (fun p => only_blanks p = true) parts ->
  only_blanks (join (lit " ") parts) = true.
Proof.
  induction parts as [|x [|y l] IH]; intros H; [reflexivity | |].
  - now inversion H.
  - inversion H; subst. rewrite join_cons, !only_blanks_app.
    rewrite IH by assumption. now rewrite andb_true_r.
Qed.

Lemma head_ns_app : forall a b, a <> [] -> head_ns (a ++ b) = head_ns a.
Proof. intros [|c a] b H; [congruence | reflexivity]. Qed.

Lemma no_ws_run_glue : forall a b,
  no_ws_run a = true -> last_ns a = true -> a <> [] ->
  no_ws_run b = true -> head_ns b = true -> b <> [] ->
  no_ws_run (a ++ " "%char :: b) = true.
Proof.
  induction a as [|c [|d a] IH]; intros b Ra La Na Rb Hb Nb; [congruence | |].
  - destruct b as [|e b]; [congruence|].
    simpl in La, Hb. apply negb_true_iff in La, Hb.
    change ([c] ++ " "%char :: e :: b) with (c :: " "%char :: e :: b).
    rewrite !no_ws_run_cons, La, Hb, Rb. reflexivity.
  - change ((c :: d :: a) ++ " "%char :: b)
      with (c :: d :: (a ++ " "%char :: b)).
    rewrite no_ws_run_cons in *.
    apply andb_true_iff in Ra as [R1 R2]. rewrite R1. simpl.
    apply (IH b); auto. discriminate.
Qed.

Lemma ws_normal_glue : forall a b,
  ws_normal a = true -> a <> [] -> ws_normal b = true -> b <> [] ->
  ws_normal (a ++ lit " " ++ b) = true.
Proof.
  unfold ws_normal. intros a b Ha Na Hb Nb.
  apply andb_true_iff in Ha as [Ha La]. apply andb_true_iff in Ha as [Ha Fa].
  apply andb_true_iff in Ha as [Ba Ra].
  apply andb_true_iff in Hb as [Hb Lb]. apply andb_true_iff in Hb as [Hb Fb].
  apply andb_true_iff in Hb as [Bb Rb].
  change (lit " " ++ b) with (" "%char :: b).
  rewrite only_blanks_app, Ba.
  rewrite no_ws_run_glue, head_ns_app, Fa, last_ns_app by (auto; discriminate).
  destruct b as [|e b]; [congruence|].
  unfold only_blanks in *. simpl in *. now rewrite Bb, Lb.
Qed.

Lemma ws_normal_join : forall parts,
  Forall (fun p => ws_normal p = true /\ p <> []) parts ->
  ws_normal (join (lit " ") parts) = true.
Proof.
  induction parts as [|x [|y l] IH]; intros H; [reflexivity | |].
  - now inversion H.
  - inversion H as [|? ? [Hx Nx] H']; subst. rewrite join_cons.
    apply ws_normal_glue; auto.
    inversion H' as [|? ? [_ Ny] _]; subst. now apply join_nonempty.
Qed.

(** ** The loop of [clean_transcript_text] *)

Lemma clean_segment_ok : forall sg text,
  segment_text sg = Some text ->
  clean_segment sg = Ok (clean_segment_text text).
Proof.
  intros [ | | | | |d] text; simpl; try discriminate.
  unfold clean_segment. simpl.
  destruct (dict_get "text" d) as [[ | | |s| | ]|]; try discriminate.
  now intros [= ->].
Qed.

Lemma clean_segment_inv : forall sg x,
  clean_segment sg = Ok x ->
  exists text, segment_text sg = Some text /\ x = clean_segment_text text.
Proof.
  intros [ | | | | |d] x; unfold clean_segment; simpl; try discriminate.
  destruct (dict_get "text" d) as [[ | | |s| | ]|]; simpl; try discriminate.
  intros [= <-]. now exists s.
Qed.

Lemma clean_loop_ok : forall segs texts acc,
  map segment_text segs = map Some texts ->
  clean_loop segs acc = Ok (acc ++ map clean_segment_text texts).
Proof.
  induction segs as [|sg segs IH]; intros [|t texts] acc E; try discriminate.
  - simpl. now rewrite app_nil_r.
  - simpl in E. injection E as E1 E2.
    simpl. rewrite (clean_segment_ok _ _ E1). simpl.
    rewrite (IH _ _ E2), <- app_assoc. reflexivity.
Qed.

Lemma clean_loop_inv : forall segs acc out,
  clean_loop segs acc = Ok out ->
  exists texts, map segment_text segs = map Some texts
                /\ out = acc ++ map clean_segment_text texts.
Proof.
  induction segs as [|sg segs IH]; simpl; intros acc out H.
  - injection H as <-. exists []. now rewrite app_nil_r.
  - destruct (clean_segment sg) as [x|e] eqn:E; [|discriminate].
    simpl in H. apply clean_segment_inv in E as (t & E & ->).
    apply IH in H as (texts & Et & ->).
    exists (t :: texts). simpl. now rewrite E, Et, <- app_assoc.
Qed.

Lemma well_formed_texts : forall segs,
  Forall well_formed segs ->
  exists texts, map segment_text segs = map Some texts.
Proof.
  induction 1 as [|sg segs [t Ht] _ (texts & IH)]; [now exists []|].
  exists (t :: texts). simpl. now rewrite Ht, IH.
Qed.

Lemma clean_list_ok : forall segs texts,
  map segment_text segs = map Some texts ->
  clean_transcript_text (PList segs)
  = Ok (join (lit " ") (map clean_segment_text texts)).
Proof.
  intros [|sg segs] texts E.
  - destruct texts; [reflexivity | discriminate].
  - unfold clean_transcript_text.
    change (truthy (PList (sg :: segs))) with true.
    cbn [negb iterate bind]. now rewrite (clean_loop_ok _ _ [] E).
Qed.

Lemma clean_list_inv : forall segs out,
  clean_transcript_text (PList segs) = Ok out ->
  exists texts, map segment_text segs = map Some texts
                /\ out = join (lit " ") (map clean_segment_text texts).
Proof.
  intros [|sg segs] out H.
  - injection H as <-. now exists [].
  - unfold clean_transcript_text in H.
    change (truthy (PList (sg :: segs))) with true in H.
    cbn [negb iterate bind] in H.
    destruct (clean_loop (sg :: segs) []) as [l|e] eqn:E; [|discriminate].
    injection H as <-. apply clean_loop_inv in E as (texts & Et & ->).
    now exists texts.
Qed.

(** ** Texts whose angle brackets come in pairs *)

Example markup_is_paired :
  paired (lit "<00:00:11.200><c> word</c> next") = true
  /\ paired (lit "<c>a</c> > b") = false
  /\ paired (lit "a < b") = false.
Proof. repeat split. Qed.

(** Inside a pair, up to its ['>']. *)
Lemma paired_close : forall w rest,
  existsb is_gt w = false ->
  paired_from true (w ++ ">"%char :: rest) = true ->
  paired_from false rest = true.
Proof.
  induction w as [|c w IH]; simpl; intros rest G H; [exact H|].
  apply orb_false_iff in G as [Gc Gw]. rewrite Gc in H.
  destruct (is_lt c); [discriminate | now apply IH].
Qed.

Lemma paired_match : forall w rest o,
  existsb is_gt w = false ->
  paired_from o (("<"%char :: w ++ [">"%char]) ++ rest) = true ->
  o = false /\ paired_from false rest = true.
Proof.
  intros w rest o G H. simpl in H. rewrite <- app_assoc in H. simpl in H.
  apply andb_true_iff in H as [Ho H]. apply negb_true_iff in Ho.
  split; [exact Ho | now apply paired_close with w].
Qed.

(** Deleting matches of a tight pattern leaves the brackets in pairs. *)
Lemma paired_sub : forall r, tight r ->
  forall s o, paired_from o s = true ->
              paired_from o (re_sub r [] s) = true.
Proof.
  intros r T.
  apply (re_sub_ind r [] (tight_nonempty _ T)
           (fun s out => forall o, paired_from o s = true ->
                                   paired_from o out = true)).
  - auto.
  - intros c t _ IH o. simpl. destruct (is_lt c).
    + intros H. apply andb_true_iff in H as [Ho H]. rewrite Ho. now apply IH.
    + destruct (is_gt c); [|apply IH].
      intros H. apply andb_true_iff in H as [Ho H]. rewrite Ho. now apply IH.
  - intros u rest _ M _ IH o H. destruct (T _ M) as (w & -> & G).
    apply paired_match in H as [-> H]; [|exact G]. now apply IH.
Qed.

Lemma paired_open_gt : forall t,
  paired_from true t = true -> existsb is_gt t = true.
Proof.
  induction t as [|c t IH]; simpl; intros H; [discriminate|].
  destruct (is_lt c); [discriminate|].
  destruct (is_gt c); [reflexivity | now apply IH].
Qed.

(** Once [<[^>]*>] is deleted from such a text, no bracket is left. *)
Lemma paired_angle : forall s,
  paired s = true -> no_angle (re_sub re_angle [] s) = true.
Proof.
  unfold paired.
  apply (re_sub_ind re_angle [] (tight_nonempty _ angle_tight)
           (fun s out => paired_from false s = true -> no_angle out = true)).
  - reflexivity.
  - intros c t E IH H. simpl in H. unfold no_angle. simpl.
    destruct (is_lt c) eqn:L.
    + apply Ascii.eqb_eq in L. subst c. simpl in H.
      destruct (angle_found t (paired_open_gt _ H)) as (rest & E').
      congruence.
    + destruct (is_gt c); [discriminate|]. simpl. now apply IH.
  - intros u rest _ M _ IH H. destruct (angle_tight _ M) as (w & -> & G).
    apply paired_match in H as [_ H]; [|exact G]. now apply IH.
Qed.

Lemma no_angle_brackets : forall s, no_angle s = true <-> brackets s = [].
Proof.
  induction s as [|c t IH]; [now split|].
  unfold no_angle in *. rewrite brackets_cons. simpl.
  destruct (is_lt c || is_gt c); simpl; [split; discriminate | exact IH].
Qed.

Lemma clean_paired : forall text,
  paired text = true -> no_angle (clean_segment_text text) = true.
Proof.
  intros text H. unfold clean_segment_text.
  apply no_angle_brackets. rewrite strip_brackets, spaces_brackets.
  apply no_angle_brackets, paired_angle.
  unfold paired in *.
  now apply paired_sub, paired_sub;
    [apply style_tight | apply timestamp_tight |].
Qed.

Lemma texts_paired : forall segs texts,
  map segment_text segs = map Some texts ->
  Forall (fun sg => forall text, segment_text sg = Some text ->
                                 paired text = true) segs ->
  Forall (fun t => paired t = true) texts.
Proof.
  induction segs as [|sg segs IH]; intros [|t texts] E H; try discriminate;
    [constructor|].
  simpl in E. injection E as E1 E2. inversion H as [|? ? H1 H2]; subst.
  constructor; [now apply H1 | now apply IH].
Qed.

Lemma no_angle_app : forall a b,
  no_angle (a ++ b) = no_angle a && no_angle b.
Proof. intros a b. apply forallb_app. Qed.

Lemma no_angle_join : forall parts,
  Forall (fun p => no_angle p = true) parts ->
  no_angle (join (lit " ") parts) = true.
Proof.
  induction parts as [|x [|y l] IH]; intros H; [reflexivity | |].
  - now inversion H.
  - inversion H as [|? ? Hx Hl]; subst.
    now rewrite join_cons, !no_angle_app, Hx, IH.
Qed.

(* ------------------------------------------------------------------ *)
(** ** Claims about [clean_transcript_text] *)

(** The steps on one segment text. *)
Example timestamp_step :
  re_sub re_timestamp [] (lit "<00:00:00.000> Hello") = lit " Hello".
Proof. vm_compute. reflexivity. Qed.

Example style_step :
  re_sub re_style [] (lit "<c>a</c> > b") = lit "a > b".
Proof. vm_compute. reflexivity. Qed.

Example angle_step :
  re_sub re_angle [] (lit "a < b c > d <") = lit "a  d <".
Proof. vm_compute. reflexivity. Qed.

Example spaces_step :
  strip (re_sub re_spaces (lit " ") (lit "  a   d  ")) = lit "a d".
Proof. vm_compute. reflexivity. Qed.

(** An item without a ['text'] key is no segment of the data model: the
    subscript raises. *)
Example missing_text_raises :
  clean_transcript_text (PList [PDict []]) = Raise KeyError.
Proof. reflexivity. Qed.

(** C6.  The two segments ["<00:00:00.000> Hello"] and ["world  "] clean to
    exactly ["Hello world"]. *)
Theorem clean_hello_world :
  clean_transcript_text
    (PList [segment_lit "<00:00:00.000> Hello"; segment_lit "world  "])
  = Ok (lit "Hello world").
Proof. vm_compute. reflexivity. Qed.

(** C1, as stated, fails.  A ['>'] that closes nothing is kept: the text
    ["<c>a</c> > b"] cleans to ["a > b"].  A segment that cleans to nothing
    leaves two blanks side by side: ["<c>x</c>"], [""], ["y"] clean to
    ["x  y"]. *)
Lemma lone_bracket_kept :
  ~ bracket_free_at [segment_lit "<c>a</c> > b"]
  /\ ~ bracket_free_at
         [segment_lit "<c>x</c>"; segment_lit ""; segment_lit "y"].
Proof.
  split; intros H.
  - assert (M : has_markup [segment_lit "<c>a</c> > b"]).
    { exists (segment_lit "<c>a</c> > b"), (lit "<c>a</c> > b").
      split; [now left | split; vm_compute; reflexivity]. }
    destruct (H ltac:(discriminate) M (lit "a > b") eq_refl) as [A _].
    vm_compute in A. discriminate.
  - assert (M : has_markup
                  [segment_lit "<c>x</c>"; segment_lit ""; segment_lit "y"]).
    { exists (segment_lit "<c>x</c>"), (lit "<c>x</c>").
      split; [now left | split; vm_compute; reflexivity]. }
    destruct (H ltac:(discriminate) M (lit "x  y") eq_refl) as [_ R].
    vm_compute in R. discriminate.
Qed.

Lemma parts_of_segments : forall segs texts,
  map segment_text segs = map Some texts ->
  Forall2 part_of segs (map clean_segment_text texts).
Proof.
  induction segs as [|sg segs IH]; intros [|t texts] E; try discriminate.
  - constructor.
  - injection E as Et E. cbn [map]. constructor; [|now apply IH].
    split; [|now exists t].
    apply (clean_list_ok [sg] [t]). cbn [map]. now rewrite Et.
Qed.

Lemma parts_nonempty : forall segs parts,
  Forall2 part_of segs parts ->
  Forall (fun sg => clean_transcript_text (PList [sg]) <> Ok []) segs ->
  Forall (fun p : str => p <> []) parts.
Proof.
  induction 1 as [|sg p segs parts [H _] _ IH]; intros N; [constructor|].
  inversion N as [|? ? N1 N2]; subst. constructor; [|now apply IH].
  intros ->. now apply N1.
Qed.

(** C1, amended.  For every sequence of segments that carry a string text
    (with markup or without), the cleaner returns the join, by single
    blanks, of one part per segment: the part of a segment is what the
    cleaner returns on that segment alone.  No part holds a ['<'] that is
    followed later by a ['>'], and the whitespace of a part is made of
    single blanks between other characters.  So every whitespace character
    of the result is a blank; when no segment cleans to the empty string,
    the result has no run of more than one whitespace character and none
    at either end; and when the angle brackets of every text come in pairs
    (as those of timestamp and style markup do), the result holds no angle
    bracket. *)
Theorem cleaned_parts_shape : forall segs,
  Forall well_formed segs ->
  exists parts,
    clean_transcript_text (PList segs) = Ok (join (lit " ") parts)
    /\ Forall2 part_of segs parts
    /\ Forall (fun p => no_span p = true /\ ws_normal p = true) parts
    /\ only_blanks (join (lit " ") parts) = true
    /\ (Forall (fun sg => clean_transcript_text (PList [sg]) <> Ok []) segs ->
        ws_normal (join (lit " ") parts) = true)
    /\ (Forall (fun sg => forall text, segment_text sg = Some text ->
                                      paired text = true) segs ->
        no_angle (join (lit " ") parts) = true).
Proof.
  intros segs W. destruct (well_formed_texts _ W) as (texts & E).
  exists (map clean_segment_text texts).
  assert (F : Forall (fun p => no_span p = true /\ ws_normal p = true)
                (map clean_segment_text texts)).
  { apply Forall_map, Forall_forall. intros t _.
    split; [apply clean_no_span | apply clean_ws_normal]. }
  pose proof (parts_of_segments _ _ E) as P2.
  split; [now apply clean_list_ok|].
  split; [exact P2|].
  split; [exact F|]. split; [|split].
  - apply only_blanks_join. eapply Forall_impl; [|exact F].
    intros p [_ H]. unfold ws_normal in H.
    now repeat (apply andb_true_iff in H as [H _]).
  - intros N. pose proof (parts_nonempty _ _ P2 N) as N'.
    apply ws_normal_join.
    rewrite Forall_forall in *. intros p Hp.
    split; [apply F, Hp | apply N', Hp].
  - intros P. apply no_angle_join, Forall_map.
    eapply Forall_impl; [|exact (texts_paired _ _ E P)].
    intros t. apply clean_paired.
Qed.

Lemma cleaned_parts_shape_witness :
  Forall well_formed [segment_lit "<c>a</c> > b"; segment_lit "<00:00:11.200>c"]
  /\ exists parts,
       clean_transcript_text
         (PList [segment_lit "<c>a</c> > b"; segment_lit "<00:00:11.200>c"])
       = Ok (join (lit " ") parts)
       /\ Forall2 part_of
            [segment_lit "<c>a</c> > b"; segment_lit "<00:00:11.200>c"] parts
       /\ ws_normal (join (lit " ") parts) = true.
Proof.
  assert (W : Forall well_formed
                [segment_lit "<c>a</c> > b"; segment_lit "<00:00:11.200>c"]).
  { repeat constructor; eexists; reflexivity. }
  split; [exact W|].
  destruct (cleaned_parts_shape _ W) as (parts & E & P & _ & _ & N & _).
  exists parts. split; [exact E|]. split; [exact P|].
  apply N. repeat constructor; vm_compute; discriminate.
Defined.

(** C4, as stated, fails.  The segments ["a < b"] and ["c > d"] clean to
    ["a < b c > d"]; cleaned as one segment, that text loses ["< b c >"]
    and becomes ["a d"].  And the segments ["x"], [""], ["y"] clean to
    ["x  y"], which cleans to ["x y"]. *)
Lemma joined_span_removed :
  ~ idempotent_at [segment_lit "a < b"; segment_lit "c > d"]
  /\ ~ idempotent_at [segment_lit "x"; segment_lit ""; segment_lit "y"].
Proof.
  split; intros H.
  - specialize (H (lit "a < b c > d") eq_refl).
    vm_compute in H. discriminate.
  - specialize (H (lit "x  y") eq_refl).
    vm_compute in H. discriminate.
Qed.

(** C4, amended.  Cleaning the cleaned result once more, as a single
    segment, returns it unchanged exactly when the result holds no ['<']
    followed later by a ['>'], and no doubled, leading or trailing
    whitespace.  That is always so when the sequence has at most one
    segment. *)
Theorem clean_again : forall segs out,
  clean_transcript_text (PList segs) = Ok out ->
  (clean_transcript_text (PList [segment_of out]) = Ok out
   <-> stable out = true)
  /\ (length segs <= 1 -> stable out = true).
Proof.
  intros segs out H.
  assert (E : clean_transcript_text (PList [segment_of out])
              = Ok (clean_segment_text out)).
  { apply (clean_list_ok [segment_of out] [out]). reflexivity. }
  rewrite E. split; [split|].
  - intros [= Eo]. rewrite <- Eo. apply clean_is_stable.
  - intros S. now rewrite stable_is_clean.
  - intros L. apply clean_list_inv in H as (texts & Et & ->).
    destruct segs as [|sg [|sg' segs]]; simpl in L; [| |lia].
    + destruct texts; [reflexivity | discriminate].
    + destruct texts as [|t [|t' texts]]; try discriminate.
      simpl. apply clean_is_stable.
Qed.

Lemma clean_again_witness :
  clean_transcript_text (PList [segment_lit "<c>a</c> > b"])
  = Ok (lit "a > b")
  /\ (clean_transcript_text (PList [segment_of (lit "a > b")])
      = Ok (lit "a > b")
      <-> stable (lit "a > b") = true)
  /\ (length [segment_lit "<c>a</c> > b"] <= 1
      -> stable (lit "a > b") = true).
Proof.
  split; [reflexivity|].
  exact (clean_again [segment_lit "<c>a</c> > b"] (lit "a > b") eq_refl).
Defined.

(** C5.  [clean_transcript_text] returns a string, without raising, for
    every sequence of segments (dicts with a string under ['text']); for
    the empty list and for [None] it returns the empty string. *)
Theorem clean_total :
  (forall segs, Forall well_formed segs ->
                exists out, clean_transcript_text (PList segs) = Ok out)
  /\ clean_transcript_text (PList []) = Ok []
  /\ clean_transcript_text PNone = Ok [].
Proof.
  split; [|split; reflexivity].
  intros segs W. destruct (well_formed_texts _ W) as (texts & E).
  eexists. apply (clean_list_ok _ _ E).
Qed.

Lemma clean_total_witness :
  Forall well_formed [segment_lit "<i>one</i>"; segment_lit " two "]
  /\ exists out,
       clean_transcript_text
         (PList [segment_lit "<i>one</i>"; segment_lit " two "]) = Ok out.
Proof.
  assert (W : Forall well_formed
                [segment_lit "<i>one</i>"; segment_lit " two "]).
  { repeat constructor; eexists; reflexivity. }
  split; [exact W | exact (proj1 clean_total _ W)].
Defined.

(* ------------------------------------------------------------------ *)
(** ** Words *)

Lemma split_from_nil : forall w, split_from w [] = flush w [].
Proof. intros [|c w]; reflexivity. Qed.

Lemma split_from_space : forall w c t,
  is_space c = true -> split_from w (c :: t) = flush w (split_from [] t).
Proof. intros [|a w] c t H; simpl; now rewrite H. Qed.

Lemma split_from_other : forall w c t,
  is_space c = false -> split_from w (c :: t) = split_from (w ++ [c]) t.
Proof. intros w c t H. simpl. now rewrite H. Qed.

(** Whitespace in front only closes the word being read. *)
Lemma split_from_spaces : forall u w t,
  u <> [] -> forallb is_space u = true ->
  split_from w (u ++ t) = flush w (split_from [] t).
Proof.
  induction u as [|c [|d u] IH]; intros w t N H; [congruence | |].
  - simpl in H. apply andb_true_iff in H as [H _].
    now apply split_from_space.
  - change (forallb is_space (c :: d :: u))
      with (is_space c && forallb is_space (d :: u)) in H.
    apply andb_true_iff in H as [Hc H].
    change ((c :: d :: u) ++ t) with (c :: (d :: u) ++ t).
    rewrite split_from_space by exact Hc.
    now rewrite IH by (discriminate || exact H).
Qed.

Lemma split_from_trailing : forall s w ws,
  forallb is_space ws = true -> split_from w (s ++ ws) = split_from w s.
Proof.
  induction s as [|c t IH]; intros w ws H.
  - destruct ws as [|a ws]; [reflexivity|].
    replace (split_from w ([] ++ a :: ws))
      with (split_from w ((a :: ws) ++ [])) by (now rewrite app_nil_r).
    rewrite split_from_spaces by (discriminate || exact H).
    now rewrite split_from_nil.
  - change ((c :: t) ++ ws) with (c :: t ++ ws).
    destruct (is_space c) eqn:Hc.
    + now rewrite !split_from_space, IH by assumption.
    + now rewrite !split_from_other, IH by assumption.
Qed.

Lemma split_rstrip : forall s, split (rstrip s) = split s.
Proof.
  intros s. destruct (rstrip_prefix s) as (ws & E & H). unfold split.
  rewrite E at 2. now rewrite split_from_trailing.
Qed.

Lemma split_lstrip : forall s, split (lstrip s) = split s.
Proof.
  intros s. destruct (lstrip_suffix s) as (ws & E & H). unfold split.
  destruct ws as [|a ws]; [now rewrite E at 2|].
  rewrite E at 2. now rewrite split_from_spaces by (discriminate || exact H).
Qed.

Lemma split_strip : forall s, split (strip s) = split s.
Proof.
  intros s. unfold strip. now rewrite split_lstrip, split_rstrip.
Qed.

Lemma split_spaces : forall s w,
  split_from w (re_sub re_spaces (lit " ") s) = split_from w s.
Proof.
  apply (re_sub_ind re_spaces (lit " ") spaces_nonempty
           (fun s out => forall w, split_from w out = split_from w s)).
  - reflexivity.
  - intros c t E IH w. apply spaces_none in E.
    now rewrite !split_from_other, IH by exact E.
  - intros u rest N M _ IH w. apply spaces_shape in M as [_ M].
    rewrite (split_from_spaces u w rest) by assumption.
    change (lit " " ++ re_sub re_spaces (lit " ") rest)
      with (" "%char :: re_sub re_spaces (lit " ") rest).
    now rewrite split_from_space, IH.
Qed.

(** The words of a text without a tag are the words [fallback_summarize]
    counts. *)
Lemma split_strip_tags : forall text,
  has_match re_tag text = false -> split (strip_tags text) = split text.
Proof.
  intros text H. unfold strip_tags.
  rewrite (re_sub_no_match re_tag [] text H), split_strip.
  apply split_spaces.
Qed.

(** Counting words. *)

Lemma split_from_count : forall s w,
  length (split_from w s)
  = match w with [] => wcount false s | _ => 1 + wcount true s end.
Proof.
  induction s as [|c t IH]; intros w.
  - rewrite split_from_nil. now destruct w.
  - simpl. destruct (is_space c) eqn:Hc.
    + destruct w; simpl; now rewrite IH.
    + rewrite IH. destruct w; reflexivity.
Qed.

Lemma split_count : forall s, length (split s) = wcount false s.
Proof. intros s. apply (split_from_count s []). Qed.

Lemma wcount_start : forall s b,
  wcount b s <= (if b then 0 else 1) + wcount true s.
Proof.
  intros [|c t] b; simpl; [lia|].
  destruct (is_space c), b; lia.
Qed.

Lemma wcount_until : forall x b g rest,
  is_space g = false ->
  wcount b (x ++ g :: rest) = wcount b (x ++ [g]) + wcount true rest.
Proof.
  induction x as [|c x IH]; intros b g rest H; simpl.
  - rewrite H. lia.
  - destruct (is_space c); rewrite IH by exact H; lia.
Qed.

Lemma wcount_word : forall (x : str) (b : bool) (g : ascii),
  is_space g = false -> (if b then 0 else 1) <= wcount b (x ++ [g]).
Proof.
  induction x as [|c x IH]; intros b g H; simpl.
  - rewrite H. destruct b; lia.
  - destruct (is_space c).
    + specialize (IH false g H). simpl in IH. destruct b; lia.
    + destruct b; lia.
Qed.

(** Deleting a tag never adds a word. *)
Lemma wcount_tags : forall s inw,
  wcount inw (re_sub re_tag [] s) <= wcount inw s.
Proof.
  apply (re_sub_ind re_tag [] (tight_nonempty _ tag_tight)
           (fun s out => forall inw, wcount inw out <= wcount inw s)).
  - reflexivity.
  - intros c t _ IH inw. simpl.
    destruct (is_space c); [apply IH|].
    specialize (IH true). lia.
  - intros u rest _ M _ IH inw. apply tag_shape in M as (w & _ & -> & _).
    replace (("<"%char :: w ++ [">"%char]) ++ rest)
      with (("<"%char :: w) ++ ">"%char :: rest)
      by (simpl; now rewrite <- app_assoc).
    rewrite (wcount_until ("<"%char :: w) inw ">"%char rest eq_refl).
    pose proof (wcount_word ("<"%char :: w) inw ">"%char eq_refl).
    pose proof (wcount_start rest inw). specialize (IH inw).
    change ([] ++ re_sub re_tag [] rest) with (re_sub re_tag [] rest).
    lia.
Qed.

Lemma strip_tags_count : forall text,
  length (split (strip_tags text)) <= length (split text).
Proof.
  intros text. unfold strip_tags.
  rewrite split_strip. unfold split at 1. rewrite split_spaces.
  fold (split (re_sub re_tag [] text)).
  rewrite !split_count. apply wcount_tags.
Qed.

(* ------------------------------------------------------------------ *)
(** ** Substrings *)

Lemma contains_head : forall x b, contains x (x ++ b).
Proof. intros x b. now exists [], b. Qed.

Lemma contains_app_r : forall x a b, contains x b -> contains x (a ++ b).
Proof.
  intros x a b (pre & post & ->). exists (a ++ pre), post.
  now rewrite <- app_assoc.
Qed.

Lemma is_prefix_app : forall p x, is_prefix p (p ++ x) = true.
Proof.
  induction p as [|c p IH]; intros x; [reflexivity|].
  simpl. now rewrite Ascii.eqb_refl, IH.
Qed.

Lemma is_infix_complete : forall p s, contains p s -> is_infix p s = true.
Proof.
  intros p s (pre & post & ->). induction pre as [|a pre IH].
  - simpl. destruct (p ++ post) as [|c t] eqn:E.
    + apply app_eq_nil in E as [-> _]. reflexivity.
    + simpl is_infix. now rewrite <- E, is_prefix_app.
  - simpl app. simpl is_infix. rewrite IH. apply orb_true_r.
Qed.

(* ------------------------------------------------------------------ *)
(** ** Claims about [fallback_summarize] *)

Lemma fallback_short : forall text title,
  length (split (strip_tags text)) < 50 ->
  fallback_summarize text title
  = short_notice (length (split (strip_tags text))).
Proof.
  intros text title H. unfold fallback_summarize. cbv zeta.
  destruct (Nat.ltb_spec (length (split (strip_tags text))) 50);
    [reflexivity | lia].
Qed.

Lemma fallback_long : forall text title,
  50 <= length (split (strip_tags text)) ->
  fallback_summarize text title
  = report title (length (split (strip_tags text)))
      (beginning (split (strip_tags text)))
      (middle (split (strip_tags text)))
      (ending (split (strip_tags text))).
Proof.
  intros text title H. unfold fallback_summarize. cbv zeta.
  destruct (Nat.ltb_spec (length (split (strip_tags text))) 50);
    [lia | reflexivity].
Qed.

Lemma middle_start_nat : forall n, Z.to_nat (middle_start n) = n / 2 - 50.
Proof.
  intros n. unfold middle_start.
  change 2%Z with (Z.of_nat 2). rewrite <- Nat2Z.inj_div. lia.
Qed.

Lemma end_start_nat : forall n, Z.to_nat (end_start n) = n - 100.
Proof. intros n. unfold end_start. lia. Qed.

Lemma beginning_words : forall words,
  beginning words = join (lit " ") (firstn 100 words).
Proof. reflexivity. Qed.

Lemma middle_words : forall words,
  middle words
  = join (lit " ") (firstn 100 (skipn (length words / 2 - 50) words)).
Proof.
  intros words. unfold middle, slice. cbv zeta.
  rewrite middle_start_nat.
  replace (middle_start (length words) + 100 - middle_start (length words))%Z
    with 100%Z by lia.
  reflexivity.
Qed.

Lemma ending_words : forall words,
  ending words = join (lit " ") (skipn (length words - 100) words).
Proof.
  intros words. unfold ending, slice_from. now rewrite end_start_nat.
Qed.

(** Outside the cleaned text the function is made for: the transcript
    ["<i> a b c d e f g h i"] splits into ten words; the function deletes
    the tag before it counts, reports nine words, and its result does not
    contain ["only 10 words"]. *)
Lemma tag_not_counted :
  ~ states_word_count ten_words_one_tag None.
Proof.
  intros H. destruct H as [_ H]; [vm_compute; lia|].
  specialize (H eq_refl). apply is_infix_complete in H.
  vm_compute in H. discriminate.
Qed.

(** For any text of fewer than 50 words the notice states the number of
    words left once the function has deleted the tags and normalised the
    whitespace; that number is never more than the number of words of the
    text. *)
Lemma short_notice_after_cleaning : forall text title,
  length (split text) < 50 ->
  fallback_summarize text title
  = short_notice (length (split (strip_tags text)))
  /\ length (split (strip_tags text)) <= length (split text).
Proof.
  intros text title H. pose proof (strip_tags_count text) as L.
  split; [apply fallback_short; lia | exact L].
Qed.



(** C3, as stated, fails.  For the fifty words of [fifty_words] the three
    windows are the whole list, so the three excerpts are one and the same
    text (and none of them has 100 words).  And [fifty_words_one_tag]
    splits into fifty words, of which the function counts 49: it returns
    the short notice, not a report. *)
Lemma same_excerpt_thrice :
  ~ three_distinct_excerpts fifty_words None
  /\ ~ three_distinct_excerpts fifty_words_one_tag None.
Proof.
  split; intros H.
  - destruct H as (_ & H & _); [vm_compute; lia|].
    apply H. vm_compute. reflexivity.
  - destruct H as (H & _); [vm_compute; lia|].
    vm_compute in H. discriminate.
Qed.

(** C3, amended.  Let [words] be the words left once the function has
    deleted the tags and normalised the whitespace (the words of the input
    when it holds no tag), and [total] their number.  When [total] is at
    least 50, [fallback_summarize] returns the report; the report contains
    [total] and three excerpts: the first 100 words (all of them when there
    are fewer), the words from index [max(0, total/2 - 50)] on, 100 of them
    at most, and the last 100 words (all of them when there are fewer).
    The three windows start at three different indices exactly when
    [total >= 102]; up to 100 words each excerpt is the whole text.  A
    title that is given and not empty opens the report. *)
Theorem report_contents : forall text title,
  let words := split (strip_tags text) in
  let total := length words in
  50 <= total ->
  fallback_summarize text title
  = report title total (beginning words) (middle words) (ending words)
  /\ contains (str_of_nat total) (fallback_summarize text title)
  /\ contains (beginning words) (fallback_summarize text title)
  /\ contains (middle words) (fallback_summarize text title)
  /\ contains (ending words) (fallback_summarize text title)
  /\ beginning words = join (lit " ") (firstn 100 words)
  /\ middle words = join (lit " ") (firstn 100 (skipn (total / 2 - 50) words))
  /\ ending words = join (lit " ") (skipn (total - 100) words)
  /\ length (firstn 100 words) = Nat.min 100 total
  /\ length (firstn 100 (skipn (total / 2 - 50) words))
     = Nat.min 100 (total - (total / 2 - 50))
  /\ length (skipn (total - 100) words) = Nat.min 100 total
  /\ (total <= 100 ->
      beginning words = join (lit " ") words
      /\ middle words = join (lit " ") words
      /\ ending words = join (lit " ") words)
  /\ ((0 <> total / 2 - 50 /\ total / 2 - 50 <> total - 100
       /\ 0 <> total - 100) <-> 102 <= total)
  /\ (forall t, title = Some t -> t <> [] ->
      exists rest,
        fallback_summarize text title = lit "Video: " ++ t ++ [nl; nl] ++ rest)
  /\ (has_match re_tag text = false -> words = split text).
Proof.
  intros text title words total H.
  pose proof (fallback_long text title H) as E. fold words total in E.
  pose proof (Nat.div_mod_eq total 2) as D.
  pose proof (Nat.mod_upper_bound total 2 ltac:(discriminate)) as D'.
  rewrite E. split; [reflexivity|].
  split; [unfold report; do 4 apply contains_app_r; apply contains_head|].
  split; [unfold report; do 8 apply contains_app_r; apply contains_head|].
  split; [unfold report; do 12 apply contains_app_r; apply contains_head|].
  split; [unfold report; do 16 apply contains_app_r; apply contains_head|].
  split; [apply beginning_words|].
  split; [apply middle_words|].
  split; [apply ending_words|].
  split; [apply length_firstn|].
  split; [now rewrite length_firstn, length_skipn|].
  split; [rewrite length_skipn; fold total; lia|].
  split.
  - intros L. rewrite beginning_words, middle_words, ending_words. fold total.
    replace (total / 2 - 50) with 0 by lia.
    replace (total - 100) with 0 by lia.
    simpl skipn. now rewrite firstn_all2 by (fold total; lia).
  - split; [lia|]. split.
    + intros t -> Nt. destruct t as [|c t]; [congruence|].
      unfold report, title_text. simpl title_given. cbv iota.
      unfold title_str. rewrite <- !app_assoc. eexists. reflexivity.
    + intros T. now apply split_strip_tags.
Qed.

Lemma report_contents_witness :
  50 <= length (split (strip_tags fifty_words))
  /\ contains (str_of_nat 50)
       (fallback_summarize fifty_words (Some (lit "Talk"))).
Proof.
  assert (H : 50 <= length (split (strip_tags fifty_words)))
    by (vm_compute; lia).
  split; [exact H|].
  exact (proj1 (proj2 (report_contents fifty_words (Some (lit "Talk")) H))).
Defined.

(** C9.  The empty string splits into no word, and for it
    [fallback_summarize] returns the short notice that reports 0 words.
    No input makes the function raise: every text and title yield either
    the short notice or the report. *)
Theorem fallback_empty : forall title,
  split [] = []
  /\ fallback_summarize [] title
     = lit "This video has very little spoken content. "
       ++ lit "The transcript contains only 0 words."
  /\ forall text,
       fallback_summarize text title
       = short_notice (length (split (strip_tags text)))
       \/ fallback_summarize text title
          = report title (length (split (strip_tags text)))
              (beginning (split (strip_tags text)))
              (middle (split (strip_tags text)))
              (ending (split (strip_tags text))).
Proof.
  intros title. split; [reflexivity|]. split; [reflexivity|].
  intros text. destruct (Nat.lt_ge_cases (length (split (strip_tags text))) 50).
  - left. now apply fallback_short.
  - right. now apply fallback_long.
Qed.

(* ------------------------------------------------------------------ *)
(** ** Claims about [agno_summarize] *)

Lemma all_str_strings : forall l, all_str (map PStr l) = Ok l.
Proof.
  induction l as [|s l IH]; [reflexivity|].
  simpl. now rewrite IH.
Qed.

Lemma text_fields_present : forall segs,
  Forall text_or_absent segs ->
  text_fields segs = Ok (map PStr (present_texts segs)).
Proof.
  induction 1 as [|sg segs (d & -> & [E | (s & E)]) _ IH]; [reflexivity | |].
  - simpl. now rewrite E.
  - simpl. rewrite E. simpl. now rewrite IH.
Qed.

Lemma transcript_text_of_list : forall segs,
  Forall text_or_absent segs ->
  transcript_text_of (PList segs) = Ok (join (lit " ") (present_texts segs)).
Proof.
  intros segs H. unfold transcript_text_of, py_join.
  rewrite (text_fields_present _ H). simpl.
  now rewrite all_str_strings.
Qed.

Lemma agno_disabled : forall G transcript title text,
  transcript_text_of transcript = Ok text ->
  disabled G ->
  agno_summarize G transcript title
  = Ok (fallback_summarize (strip_tags text) title).
Proof.
  intros G transcript title text E D. unfold agno_summarize.
  rewrite E. simpl. destruct D as [D | D]; rewrite D; [reflexivity|].
  now destruct (USING_AGNO G).
Qed.

Lemma agno_call_raises : forall G transcript title text e,
  transcript_text_of transcript = Ok text ->
  call_raises G (agno_prompt (strip_tags text) title) e ->
  is_Exception e = true ->
  agno_summarize G transcript title
  = Ok (fallback_summarize (strip_tags text) title).
Proof.
  intros G transcript title text e E (U & call & L & C) X.
  unfold agno_summarize. rewrite E. simpl. now rewrite U, L, C, X.
Qed.

(** C10.  When [agno_summarize] receives a list of segments, the text it
    summarises is the join, by single blanks, of the ['text'] fields of
    the segments that have one (cleaned like any other text); a segment
    without a ['text'] key is skipped.  With a provider whose call returns
    or raises an [Exception], the function returns a summary and does not
    raise. *)
Theorem missing_text_skipped : forall G segs title,
  Forall text_or_absent segs ->
  transcript_text_of (PList segs) = Ok (join (lit " ") (present_texts segs))
  /\ (disabled G ->
      agno_summarize G (PList segs) title
      = Ok (fallback_summarize
              (strip_tags (join (lit " ") (present_texts segs))) title))
  /\ ((forall call prompt e,
         llm G = Some call -> call prompt = Raise e -> is_Exception e = true)
      -> exists summary, agno_summarize G (PList segs) title = Ok summary).
Proof.
  intros G segs title H.
  pose proof (transcript_text_of_list _ H) as E. split; [exact E|].
  split; [now apply agno_disabled|].
  intros X. unfold agno_summarize. rewrite E. simpl.
  destruct (USING_AGNO G); [|eexists; reflexivity].
  destruct (llm G) as [call|] eqn:L; [|eexists; reflexivity].
  destruct (call _) as [s|e] eqn:C; [eexists; reflexivity|].
  rewrite (X _ _ _ eq_refl C). eexists; reflexivity.
Qed.

Lemma missing_text_skipped_witness :
  Forall text_or_absent [segment_lit "a"; PDict []; segment_lit "b"]
  /\ transcript_text_of (PList [segment_lit "a"; PDict []; segment_lit "b"])
     = Ok (lit "a b")
  /\ exists summary,
       agno_summarize failing_provider
         (PList [segment_lit "a"; PDict []; segment_lit "b"]) None
       = Ok summary.
Proof.
  assert (H : Forall text_or_absent
                [segment_lit "a"; PDict []; segment_lit "b"]).
  { repeat constructor.
    - eexists; split; [reflexivity | right; eexists; reflexivity].
    - eexists; split; [reflexivity | now left].
    - eexists; split; [reflexivity | right; eexists; reflexivity]. }
  split; [exact H|].
  destruct (missing_text_skipped failing_provider _ None H) as (E & _ & S).
  split; [exact E|]. apply S.
  intros call prompt e [= <-] [= <-]. reflexivity.
Defined.

(* ------------------------------------------------------------------ *)
(** ** Claims about the two entry points and the driver *)

(** A run whose fetches succeed gets as far as the LLM call, with no file
    written yet. *)
Lemma run_to_summary : forall W a segs title,
  fetched W a (PList segs) -> Forall well_formed segs -> titled W a title ->
  exists tr text,
    clean_transcript_text (PList segs) = Ok text
    /\ existsb is_dump tr = false
    /\ run W a
       = io_bind (lift (summarize_with_agno W text title))
           (fun summary => output_result W a title summary) tr.
Proof.
  intros W a segs title [F T] Wf (details & D & Ti).
  destruct (well_formed_texts _ Wf) as (texts & Et).
  pose proof (clean_list_ok _ _ Et) as C.
  set (text := join (lit " ") (map clean_segment_text texts)) in C.
  unfold transcript_url in F. unfold video_url in D.
  cbv [run main io_bind print emit lift ret raise fetch_transcript
       fetch_video_details].
  rewrite F. cbv beta iota. rewrite T.
  change (negb true) with false. cbv beta iota.
  destruct D as [D | (-> & msg & D)]; rewrite D;
    cbv [py_len]; cbv beta iota;
    rewrite Ti, C; eexists; exists text;
    (split; [reflexivity | split; [|reflexivity]]); reflexivity.
Qed.

(** A transcript API that answers [success: false] ends the run. *)
Lemma run_unsuccessful : forall W a,
  responds_unsuccessful W a ->
  exit_status (run W a) = 1%Z /\ wrote_file (run W a) = false.
Proof.
  intros W a (resp & d & G & S & J & F).
  unfold transcript_url in G.
  cbv [run main io_bind print emit lift ret raise fetch_transcript
       fetch_transcript_try bind].
  rewrite G. cbv beta iota.
  destruct S as [S | (msg & S)]; rewrite S; cbv beta iota.
  - rewrite J. cbv [get get_default]. cbv beta iota. rewrite F.
    cbv [truthy]. cbv beta iota.
    destruct (dict_get "message" d); split; reflexivity.
  - cbv [truthy negb]. cbv beta iota.
    split; reflexivity.
Qed.

(** What the module-level code leaves: the provider is switched off, or it
    is on and has its call. *)
Lemma module_init_globals : forall E G,
  module_init E = Ok G ->
  disabled G \/ (USING_AGNO G = true /\ exists call, llm G = Some call).
Proof.
  intros E G. unfold module_init.
  repeat match goal with
  | |- context [if ?b then _ else _] => destruct b
  | |- context [match ?x with _ => _ end] => destruct x
  end; intros [= <-]; try (left; now left).
  right. split; [reflexivity | eexists; reflexivity].
Qed.

(** Without the API key the provider is switched off. *)
Lemma module_init_no_key : forall E,
  env_set E "AZURE_OPENAI_API_KEY" = false ->
  module_init E = Ok {| USING_AGNO := false; llm := None |}.
Proof.
  intros E H. unfold module_init. simpl fold_left. rewrite H. simpl.
  now destruct (env_set E "AZURE_OPENAI_API_VERSION"),
               (env_set E "AZURE_OPENAI_ENDPOINT").
Qed.

(** C8.  The two entry points treat a failing LLM differently.  In
    [agno_summarize], whenever the provider is switched off or its call
    raises an exception, the result is [fallback_summarize] applied to the
    cleaned text and the title.  In [summarize_with_agno], an exception of
    the agno library comes out of the function as it is; the run of the
    driver ends with it, writes no file and exits with status 1. *)
Theorem llm_unavailable :
  (forall G transcript title text,
      transcript_text_of transcript = Ok text ->
      (disabled G
       \/ exists e, call_raises G (agno_prompt (strip_tags text) title) e
                    /\ is_Exception e = true) ->
      agno_summarize G transcript title
      = Ok (fallback_summarize (strip_tags text) title))
  /\ (forall W a segs title text e,
      fetched W a (PList segs) -> Forall well_formed segs ->
      titled W a title ->
      clean_transcript_text (PList segs) = Ok text -> text <> [] ->
      llm_raises W (agno_agent_prompt text (format_value W title)) e ->
      summarize_with_agno W text title = Raise e
      /\ snd (run W a) = Raise e
      /\ wrote_file (run W a) = false
      /\ (is_Exception e = true -> exit_status (run W a) = 1%Z)).
Proof.
  split.
  - intros G transcript title text E [D | (e & C & X)].
    + now apply agno_disabled.
    + now apply agno_call_raises with e.
  - intros W a segs title text e F Wf T C N R.
    assert (S : summarize_with_agno W text title = Raise e).
    { destruct text as [|c text]; [congruence|].
      unfold summarize_with_agno.
      destruct R as [R | (m & R1 & [R | (ag & R2 & R)])].
      - now rewrite R.
      - rewrite R1. cbn [bind]. now rewrite R.
      - rewrite R1. cbn [bind]. rewrite R2. exact R. }
    destruct (run_to_summary W a segs title F Wf T)
      as (tr & text' & C' & D & E).
    rewrite C in C'. injection C' as <-.
    rewrite E. unfold io_bind, lift. rewrite S.
    unfold wrote_file, exit_status. simpl fst. simpl snd.
    repeat split; auto. intros X. now destruct e.
Qed.

Lemma llm_unavailable_witness :
  agno_summarize failing_provider (PList [segment_lit "a <b>word</b>"]) None
  = Ok (fallback_summarize (lit "a word") None)
  /\ snd (run world_without_llm some_args)
     = Raise (LibraryError (lit "missing credentials")).
Proof.
  split.
  - apply (proj1 llm_unavailable failing_provider
             (PList [segment_lit "a <b>word</b>"]) None (lit "a <b>word</b>")).
    + reflexivity.
    + right. exists (LibraryError (lit "timeout")). split; [|reflexivity].
      split; [reflexivity | eexists; split; reflexivity].
  - apply (proj2 llm_unavailable world_without_llm some_args
             [segment_lit "hello"] (PStr (lit "A talk")) (lit "hello")
             (LibraryError (lit "missing credentials"))).
    + split; reflexivity.
    + repeat constructor. eexists; reflexivity.
    + eexists. split; [left; reflexivity | reflexivity].
    + reflexivity.
    + discriminate.
    + left. reflexivity.
Defined.

(** C7, as stated, fails.  In [world_without_llm] the transcript fetch
    succeeds, the agno library then raises, and the run exits with status
    1, not 0. *)
Lemma failing_llm_exits_nonzero :
  ~ exit_zero_after_fetch world_without_llm some_args.
Proof.
  intros H.
  assert (F : exists transcript,
             fetched world_without_llm some_args transcript).
  { exists (PList [segment_lit "hello"]). split; reflexivity. }
  specialize (H F). vm_compute in H. discriminate.
Qed.

(** C7, amended.  When the transcript API answers [success: false], the
    run exits with status 1 and writes no output file.  When the
    transcript fetch succeeds, the run exits with status 0 provided every
    later step returns: the segments carry a string text, the video
    details are fetched or their request fails with an error of
    [requests], the LLM call returns a summary, and the output file, if one
    is asked for, can be opened; that file is then written. *)
Theorem driver_exit_status : forall W a,
  (responds_unsuccessful W a ->
   exit_status (run W a) = 1%Z /\ wrote_file (run W a) = false)
  /\ (forall segs title text summary,
      fetched W a (PList segs) -> Forall well_formed segs ->
      titled W a title ->
      clean_transcript_text (PList segs) = Ok text ->
      summarize_with_agno W text title = Ok summary ->
      writable W a ->
      exit_status (run W a) = 0%Z
      /\ (forall p, output a = Some p -> p <> [] ->
                    wrote_file (run W a) = true)).
Proof.
  intros W a. split; [apply run_unsuccessful|].
  intros segs title text summary F Wf T C S Wr.
  destruct (run_to_summary W a segs title F Wf T)
    as (tr & text' & C' & D & E).
  rewrite C in C'. injection C' as <-.
  rewrite E. unfold io_bind at 1. unfold lift. rewrite S.
  unfold output_result. unfold writable in Wr.
  destruct (output a) as [[|c p]|] eqn:O.
  - split; [reflexivity | intros p [= <-]; congruence].
  - rewrite (Wr (c :: p) eq_refl) by discriminate.
    split; [reflexivity|]. intros q _ _.
    cbv [wrote_file io_bind lift emit print fst].
    rewrite !existsb_app. simpl. now rewrite orb_true_r.
  - split; [reflexivity | discriminate].
Qed.

Lemma driver_exit_status_witness :
  (exit_status (run world_no_transcript some_args) = 1%Z
   /\ wrote_file (run world_no_transcript some_args) = false)
  /\ exit_status (run world_with_llm some_args) = 0%Z.
Proof.
  split.
  - apply (proj1 (driver_exit_status world_no_transcript some_args)).
    eexists. eexists. split; [reflexivity|].
    split; [left; reflexivity|]. split; reflexivity.
  - apply (proj2 (driver_exit_status world_with_llm some_args)
             [segment_lit "hello"] (PStr (lit "A talk")) (lit "hello")
             (lit "a summary")).
    + split; reflexivity.
    + repeat constructor. eexists; reflexivity.
    + eexists. split; [left; reflexivity | reflexivity].
    + reflexivity.
    + reflexivity.
    + intros p _ _. reflexivity.
Defined.

(* ================================================================== *)
(** * Further properties of the code *)

(* ------------------------------------------------------------------ *)
(** ** [clean_transcript_text]: malformed segments, plain text, length *)

Lemma clean_loop_app : forall good texts rest acc,
  map segment_text good = map Some texts ->
  clean_loop (good ++ rest) acc
  = clean_loop rest (acc ++ map clean_segment_text texts).
Proof.
  induction good as [|sg good IH]; intros [|t texts] rest acc E;
    try discriminate.
  - simpl. now rewrite app_nil_r.
  - simpl in E. injection E as E1 E2.
    simpl. rewrite (clean_segment_ok _ _ E1). simpl.
    rewrite (IH _ _ _ E2), <- app_assoc. reflexivity.
Qed.

Lemma clean_list_nonempty : forall segs,
  segs <> [] ->
  clean_transcript_text (PList segs)
  = (cleaned_texts <- clean_loop segs [] ;;
     Ok (join (lit " ") cleaned_texts)).
Proof.
  intros [|sg segs] H; [congruence | reflexivity].
Qed.

(** X1.  The first item that is no segment of the data model decides how
    [clean_transcript_text] ends: after well-formed segments, a dict
    without ['text'] raises [KeyError] and a dict whose ['text'] is not a
    string raises [TypeError], whatever comes behind it. *)
Theorem clean_first_bad : forall good d rest,
  Forall well_formed good ->
  (dict_get "text" d = None ->
   clean_transcript_text (PList (good ++ PDict d :: rest)) = Raise KeyError)
  /\ (forall v, dict_get "text" d = Some v -> is_str v = false ->
      clean_transcript_text (PList (good ++ PDict d :: rest))
      = Raise TypeError).
Proof.
  intros good d rest W.
  destruct (well_formed_texts _ W) as (texts & E).
  assert (N : good ++ PDict d :: rest <> [])
    by (destruct good; discriminate).
  split; [intros H | intros v H S];
    rewrite (clean_list_nonempty _ N), (clean_loop_app _ _ _ _ E);
    simpl; unfold clean_segment; simpl; rewrite H; [reflexivity|].
  now destruct v.
Qed.

Lemma clean_first_bad_witness :
  Forall well_formed [segment_lit "a"]
  /\ clean_transcript_text
       (PList ([segment_lit "a"] ++ PDict [] :: [PNum 3])) = Raise KeyError.
Proof.
  assert (W : Forall well_formed [segment_lit "a"])
    by (repeat constructor; eexists; reflexivity).
  split; [exact W|].
  exact (proj1 (clean_first_bad [segment_lit "a"] [] [PNum 3] W) eq_refl).
Defined.

(** Where no ['<'] is, no tight pattern matches. *)
Lemma no_lt_no_match : forall r, tight r ->
  forall s, existsb is_lt s = false -> has_match r s = false.
Proof.
  intros r T. induction s as [|c t IH]; intros H; [reflexivity|].
  simpl in *. apply orb_false_iff in H as [Hc Ht].
  destruct (match_at r (c :: t)) as [rest|] eqn:E; [|auto].
  destruct (match_at_some _ _ _ E) as (u & Es & M).
  destruct (T _ M) as (w & -> & _). injection Es as -> _. discriminate.
Qed.

Lemma split_from_nonempty : forall s w, w <> [] -> split_from w s <> [].
Proof.
  induction s as [|c t IH]; intros w H.
  - destruct w; [congruence | discriminate].
  - simpl. destruct (is_space c).
    + destruct w; [congruence | discriminate].
    + apply IH. destruct w; discriminate.
Qed.

Lemma join_two : forall sep x l,
  l <> [] -> join sep (x :: l) = x ++ sep ++ join sep l.
Proof. intros sep x [|y l] H; [congruence | reflexivity]. Qed.

(** Joining the words of a normal text gives the text back. *)
Lemma join_split_from : forall s w,
  only_blanks s = true -> no_ws_run s = true -> last_ns s = true ->
  (w = [] -> head_ns s = true) ->
  join (lit " ") (split_from w s) = w ++ s.
Proof.
  induction s as [|c t IH]; intros w B R L Hw.
  - rewrite split_from_nil, app_nil_r. now destruct w.
  - unfold only_blanks in B. simpl in B.
    apply andb_true_iff in B as [Bc B].
    pose proof (no_ws_run_tail _ _ R) as Rt.
    destruct (is_space c) eqn:Sc.
    + simpl in Bc. apply Ascii.eqb_eq in Bc. subst c.
      destruct w as [|a w]; [specialize (Hw eq_refl); discriminate|].
      destruct t as [|d t]; [discriminate|].
      rewrite no_ws_run_cons in R. apply andb_true_iff in R as [Rd _].
      rewrite Sc in Rd. simpl in Rd.
      rewrite split_from_space by exact Sc. unfold flush.
      rewrite join_two.
      * rewrite (IH []); auto.
      * rewrite split_from_other by now apply negb_true_iff.
        apply split_from_nonempty. discriminate.
    + rewrite split_from_other by exact Sc.
      rewrite IH; auto.
      * now rewrite <- app_assoc.
      * destruct t; [reflexivity | exact L].
      * intros E. destruct w; discriminate.
Qed.

Lemma join_split : forall s, ws_normal s = true -> join (lit " ") (split s) = s.
Proof.
  intros s H. unfold ws_normal in H.
  apply andb_true_iff in H as [H L]. apply andb_true_iff in H as [H F].
  apply andb_true_iff in H as [B R].
  apply (join_split_from s []); auto.
Qed.

(** Whitespace normalisation is [' '.join(text.split())]. *)
Lemma normalise_join_split : forall t,
  strip (re_sub re_spaces (lit " ") t) = join (lit " ") (split t).
Proof.
  intros t.
  rewrite <- (join_split (strip (re_sub re_spaces (lit " ") t))).
  - rewrite split_strip. unfold split. now rewrite split_spaces.
  - apply strip_ws_normal; [apply spaces_only_blanks | apply spaces_no_ws_run].
Qed.

Lemma clean_plain_text : forall t,
  existsb is_lt t = false ->
  clean_segment_text t = join (lit " ") (split t).
Proof.
  intros t H. unfold clean_segment_text.
  rewrite (re_sub_no_match re_timestamp [] t)
    by (now apply no_lt_no_match; [apply timestamp_tight|]).
  rewrite (re_sub_no_match re_style [] t)
    by (now apply no_lt_no_match; [apply style_tight|]).
  rewrite (re_sub_no_match re_angle [] t)
    by (now apply no_lt_no_match; [apply angle_tight|]).
  apply normalise_join_split.
Qed.

(** X2.  Text without a ['<'] loses nothing but whitespace: each segment is
    replaced by its words joined by single blanks, and the result is the
    join of those. *)
Theorem clean_plain : forall segs texts,
  map segment_text segs = map Some texts ->
  Forall (fun t => existsb is_lt t = false) texts ->
  clean_transcript_text (PList segs)
  = Ok (join (lit " ") (map (fun t => join (lit " ") (split t)) texts)).
Proof.
  intros segs texts E H. rewrite (clean_list_ok _ _ E). do 2 f_equal.
  apply map_ext_in. intros t Ht. apply clean_plain_text.
  rewrite Forall_forall in H. now apply H.
Qed.

Lemma clean_plain_witness :
  clean_transcript_text
    (PList [segment_lit "  so   we "; segment_lit "begin > now"])
  = Ok (lit "so we begin > now").
Proof.
  apply (clean_plain [segment_lit "  so   we "; segment_lit "begin > now"]
           [lit "  so   we "; lit "begin > now"]).
  - reflexivity.
  - repeat constructor.
Defined.

(** Cleaning only deletes, or puts one blank for a run of whitespace. *)

Lemma delete_length : forall r, ~ matches r [] ->
  forall s, length (re_sub r [] s) <= length s.
Proof.
  intros r N.
  apply (re_sub_ind r [] N (fun s out => length out <= length s)).
  - reflexivity.
  - intros c t _ IH. cbn [length]. lia.
  - intros u rest _ _ _ IH. cbn [app]. rewrite length_app. lia.
Qed.

Lemma spaces_length : forall s,
  length (re_sub re_spaces (lit " ") s) <= length s.
Proof.
  apply (re_sub_ind re_spaces (lit " ") spaces_nonempty
           (fun s out => length out <= length s)).
  - reflexivity.
  - intros c t _ IH. cbn [length]. lia.
  - intros u rest N _ _ IH. rewrite !length_app.
    change (length (lit " ")) with 1.
    destruct u; [congruence | cbn [length]; lia].
Qed.

Lemma strip_length : forall s, length (strip s) <= length s.
Proof.
  intros s. unfold strip.
  destruct (rstrip_prefix s) as (w1 & E1 & _).
  destruct (lstrip_suffix (rstrip s)) as (w2 & E2 & _).
  apply (f_equal (@length ascii)) in E1, E2.
  rewrite length_app in E1, E2. lia.
Qed.

Lemma clean_segment_length : forall t,
  length (clean_segment_text t) <= length t.
Proof.
  intros t. unfold clean_segment_text.
  rewrite strip_length, spaces_length.
  rewrite !delete_length; [reflexivity | | |];
    apply tight_nonempty;
    [apply timestamp_tight | apply style_tight | apply angle_tight].
Qed.

Lemma join_map_length : forall (f : str -> str) sep l,
  (forall t, length (f t) <= length t) ->
  length (join sep (map f l)) <= length (join sep l).
Proof.
  intros f sep l H. induction l as [|x [|y l] IH]; [reflexivity | apply H |].
  change (map f (x :: y :: l)) with (f x :: f y :: map f l).
  rewrite !join_cons, !length_app. specialize (H x).
  change (f y :: map f l) with (map f (y :: l)). lia.
Qed.

(** X3.  The cleaned transcript is never longer than the segment texts
    joined by single blanks. *)
Theorem clean_not_longer : forall segs texts,
  map segment_text segs = map Some texts ->
  exists out,
    clean_transcript_text (PList segs) = Ok out
    /\ length out <= length (join (lit " ") texts).
Proof.
  intros segs texts E. eexists. split; [apply (clean_list_ok _ _ E)|].
  apply join_map_length, clean_segment_length.
Qed.

Lemma clean_not_longer_witness :
  exists out,
    clean_transcript_text (PList [segment_lit "<c>a</c>"; segment_lit " b "])
    = Ok out
    /\ length out <= 12.
Proof.
  exact (clean_not_longer [segment_lit "<c>a</c>"; segment_lit " b "]
           [lit "<c>a</c>"; lit " b "] eq_refl).
Defined.

(* ------------------------------------------------------------------ *)
(** ** [fallback_summarize]: the words of the excerpts, cleaning twice,
       the windows *)

Lemma split_from_all_words : forall s w,
  forallb (fun c => negb (is_space c)) w = true ->
  Forall (fun x => is_word x = true) (split_from w s).
Proof.
  induction s as [|c t IH]; intros w H.
  - destruct w; repeat constructor. exact H.
  - simpl. destruct (is_space c) eqn:Sc.
    + destruct w; [apply IH; reflexivity|].
      constructor; [exact H | apply IH; reflexivity].
    + apply IH. rewrite forallb_app, H. simpl. now rewrite Sc.
Qed.

Lemma split_all_words : forall s, Forall (fun x => is_word x = true) (split s).
Proof. intros s. now apply split_from_all_words. Qed.

Lemma split_from_word : forall x w rest,
  forallb (fun c => negb (is_space c)) x = true ->
  split_from w (x ++ rest) = split_from (w ++ x) rest.
Proof.
  induction x as [|c x IH]; intros w rest H.
  - now rewrite app_nil_r.
  - simpl in H. apply andb_true_iff in H as [Hc Hx].
    apply negb_true_iff in Hc. simpl app.
    rewrite split_from_other by exact Hc.
    rewrite IH by exact Hx. now rewrite <- app_assoc.
Qed.

(** Words joined by blanks split back into the same words. *)
Lemma split_join : forall ws,
  Forall (fun x => is_word x = true) ws -> split (join (lit " ") ws) = ws.
Proof.
  induction ws as [|x [|y l] IH]; intros H; [reflexivity | |].
  - inversion H as [|? ? Hx _]; subst. simpl join. unfold split.
    rewrite <- (app_nil_r x) at 1.
    destruct x as [|a x]; [discriminate|].
    rewrite split_from_word by exact Hx. reflexivity.
  - inversion H as [|? ? Hx Hl]; subst. rewrite join_cons. unfold split.
    destruct x as [|a x]; [discriminate|].
    rewrite split_from_word by exact Hx.
    change (lit " " ++ join (lit " ") (y :: l))
      with (" "%char :: join (lit " ") (y :: l)).
    rewrite split_from_space by reflexivity. simpl flush.
    f_equal. apply IH, Hl.
Qed.

Lemma Forall_firstn : forall (A : Type) (P : A -> Prop) n l,
  Forall P l -> Forall P (firstn n l).
Proof.
  intros A P. induction n as [|n IH]; intros [|x l] H; simpl;
    try constructor; inversion H; subst; auto.
Qed.

Lemma Forall_skipn : forall (A : Type) (P : A -> Prop) n l,
  Forall P l -> Forall P (skipn n l).
Proof.
  intros A P. induction n as [|n IH]; intros [|x l] H; simpl; auto.
  inversion H; subst; auto.
Qed.

Lemma excerpt_windows : forall s,
  split (beginning (split s)) = firstn 100 (split s)
  /\ split (middle (split s))
     = firstn 100 (skipn (length (split s) / 2 - 50) (split s))
  /\ split (ending (split s)) = skipn (length (split s) - 100) (split s).
Proof.
  intros s. pose proof (split_all_words s) as W.
  rewrite beginning_words, middle_words, ending_words.
  now rewrite !split_join
    by (repeat (apply Forall_firstn || apply Forall_skipn); exact W).
Qed.

(** X4.  Each excerpt of the report reads back as the words of its window:
    the first 100 words, the 100 words from [total/2 - 50] on, the last 100
    words, each cut to the words there are.  No word is split or merged by
    the blanks between them. *)
Theorem excerpts_read_back : forall text,
  let words := split (strip_tags text) in
  let total := length words in
  split (beginning words) = firstn 100 words
  /\ split (middle words) = firstn 100 (skipn (total / 2 - 50) words)
  /\ split (ending words) = skipn (total - 100) words
  /\ length (split (beginning words)) = Nat.min 100 total
  /\ length (split (ending words)) = Nat.min 100 total.
Proof.
  intros text words total.
  destruct (excerpt_windows (strip_tags text)) as (B & M & E).
  fold words in B, M, E. fold total in M, E.
  rewrite B, E. repeat split; auto.
  - apply length_firstn.
  - rewrite length_skipn. fold total. lia.
Qed.

Lemma window_then_rest : forall (A : Type) a b (l : list A),
  a <= b -> firstn (b - a) (skipn a l) ++ skipn b l = skipn a l.
Proof.
  intros A a b l H.
  replace (skipn b l) with (skipn (b - a) (skipn a l))
    by (rewrite skipn_skipn; f_equal; lia).
  apply firstn_skipn.
Qed.

(** X6.  From 300 words on, the three windows do not overlap: the words
    are the first excerpt, [total/2 - 150] words that no excerpt shows,
    the middle excerpt, [total - total/2 - 150] more words that no excerpt
    shows, and the last excerpt. *)
Theorem windows_apart : forall text,
  let words := split (strip_tags text) in
  let total := length words in
  300 <= total ->
  exists gap1 gap2,
    words = split (beginning words) ++ gap1 ++ split (middle words)
            ++ gap2 ++ split (ending words)
    /\ length (split (beginning words)) = 100
    /\ length gap1 = total / 2 - 150
    /\ length (split (middle words)) = 100
    /\ length gap2 = total - total / 2 - 150
    /\ length (split (ending words)) = 100.
Proof.
  intros text words total H.
  destruct (excerpt_windows (strip_tags text)) as (B & M & E).
  fold words in B, M, E. fold total in M, E. rewrite B, M, E.
  pose proof (Nat.div_mod_eq total 2) as D.
  pose proof (Nat.mod_upper_bound total 2 ltac:(discriminate)) as D'.
  set (ms := total / 2 - 50).
  exists (firstn (ms - 100) (skipn 100 words)),
    (firstn (total - 100 - (ms + 100)) (skipn (ms + 100) words)).
  split.
  - assert (E2 : firstn 100 (skipn ms words) ++ skipn (ms + 100) words
                 = skipn ms words).
    { replace (firstn 100 (skipn ms words))
        with (firstn (ms + 100 - ms) (skipn ms words)) by (f_equal; lia).
      apply window_then_rest. lia. }
    rewrite (window_then_rest _ (ms + 100) (total - 100) words)
      by (subst ms; lia).
    rewrite E2.
    rewrite (window_then_rest _ 100 ms words) by (subst ms; lia).
    symmetry. apply firstn_skipn.
  - rewrite !length_firstn, !length_skipn. fold total. subst ms.
    repeat split; lia.
Qed.

Lemma windows_apart_witness :
  300 <= length (split (strip_tags (concat (repeat (lit "w ") 310))))
  /\ exists gap1 gap2 : list str, length gap1 = 5 /\ length gap2 = 5.
Proof.
  assert (H : 300 <= length (split (strip_tags
                                      (concat (repeat (lit "w ") 310)))))
    by (vm_compute; lia).
  split; [exact H|].
  destruct (windows_apart (concat (repeat (lit "w ") 310)) H)
    as (gap1 & gap2 & _ & _ & L1 & _ & L2 & _).
  exists gap1, gap2. vm_compute in L1, L2. split; assumption.
Defined.

(** What [<[^>]+>] leaves behind. *)

Lemma tag_intro : forall w,
  w <> [] -> forallb not_gt w = true ->
  matches re_tag ("<"%char :: w ++ [">"%char]).
Proof.
  intros w N H. unfold re_tag.
  change ("<"%char :: w ++ [">"%char]) with (["<"%char] ++ w ++ [">"%char]).
  repeat constructor; assumption.
Qed.

Lemma tag_found : forall t,
  head_gt t = false -> existsb is_gt t = true ->
  exists rest, match_at re_tag ("<"%char :: t) = Some rest.
Proof.
  intros t Hh H. destruct (first_gt _ H) as (w & post & -> & Hw).
  assert (N : w <> []).
  { intros ->. simpl in Hh. discriminate. }
  replace ("<"%char :: w ++ ">"%char :: post)
    with (("<"%char :: w ++ [">"%char]) ++ post)
    by (simpl; now rewrite <- app_assoc).
  now apply match_at_found, tag_intro.
Qed.

Lemma untagged_no_match : forall s,
  untagged s = true -> has_match re_tag s = false.
Proof.
  induction s as [|c t IH]; intros H; [reflexivity|].
  simpl in H. apply andb_true_iff in H as [Hc Ht].
  simpl. destruct (match_at re_tag (c :: t)) as [rest|] eqn:E; [|auto].
  destruct (match_at_some _ _ _ E) as (u & Es & M).
  apply tag_shape in M as (w & N & -> & Hw).
  injection Es as -> ->.
  assert (G : existsb is_gt ((w ++ [">"%char]) ++ rest) = true)
    by (now rewrite existsb_app, existsb_gt_last).
  assert (Hh : head_gt ((w ++ [">"%char]) ++ rest) = false).
  { destruct w as [|d w]; [congruence|]. simpl in Hw.
    apply andb_true_iff in Hw as [Hd _].
    rewrite not_gt_is_gt in Hd. now apply negb_true_iff in Hd. }
  change (is_lt "<"%char) with true in Hc. cbv iota in Hc.
  rewrite G, Hh in Hc. discriminate.
Qed.

Lemma tags_removed : forall s, untagged (re_sub re_tag [] s) = true.
Proof.
  pose proof (tight_nonempty _ tag_tight) as N.
  enough (H : forall s,
             untagged (re_sub re_tag [] s) = true
             /\ (head_gt s = true -> head_gt (re_sub re_tag [] s) = true))
    by (intros s; apply H).
  apply (re_sub_ind re_tag [] N
           (fun s out => untagged out = true
                         /\ (head_gt s = true -> head_gt out = true))).
  - split; [reflexivity | discriminate].
  - intros c t E [IH1 IH2]. split; [|auto].
    simpl. rewrite IH1, andb_true_r.
    destruct (is_lt c) eqn:L; [|reflexivity].
    apply Ascii.eqb_eq in L. subst c.
    destruct (head_gt t) eqn:Hh; [now rewrite IH2|].
    destruct (existsb is_gt t) eqn:G.
    + destruct (tag_found t Hh G) as (rest & E'). congruence.
    + rewrite (re_sub_delete_gt _ N _ G). apply orb_true_r.
  - intros u rest _ M _ [IH _]. split; [exact IH|].
    apply tag_shape in M as (w & _ & -> & _). discriminate.
Qed.

Lemma untagged_cons : forall c t,
  untagged (c :: t)
  = (if is_lt c then head_gt t || negb (existsb is_gt t) else true)
    && untagged t.
Proof. reflexivity. Qed.

Lemma spaces_gt : forall s,
  existsb is_gt (re_sub re_spaces (lit " ") s) = existsb is_gt s.
Proof.
  intros s. now rewrite <- brackets_gt, spaces_brackets, brackets_gt.
Qed.

Lemma untagged_app_r : forall a b, untagged (a ++ b) = true -> untagged b = true.
Proof.
  induction a as [|c a IH]; intros b H; [exact H|].
  simpl in H. apply andb_true_iff in H as [_ H]. auto.
Qed.

Lemma untagged_trailing : forall p ws,
  forallb is_space ws = true -> untagged (p ++ ws) = true ->
  untagged p = true.
Proof.
  induction p as [|c p IH]; intros ws W H; [reflexivity|].
  simpl in H. apply andb_true_iff in H as [Hc H].
  simpl. rewrite (IH _ W H), andb_true_r.
  destruct (is_lt c); [|reflexivity].
  assert (G : existsb is_gt ws = false).
  { rewrite <- brackets_gt, (spaces_no_brackets _ W). reflexivity. }
  rewrite existsb_app, G, orb_false_r in Hc.
  destruct p as [|d p]; [reflexivity | exact Hc].
Qed.

Lemma spaces_untagged : forall s,
  untagged s = true -> untagged (re_sub re_spaces (lit " ") s) = true.
Proof.
  enough (H : forall s,
             head_gt (re_sub re_spaces (lit " ") s) = head_gt s
             /\ (untagged s = true ->
                 untagged (re_sub re_spaces (lit " ") s) = true))
    by (intros s; apply H).
  apply (re_sub_ind re_spaces (lit " ") spaces_nonempty
           (fun s out => head_gt out = head_gt s
                         /\ (untagged s = true -> untagged out = true))).
  - auto.
  - intros c t _ [IH1 IH2]. split; [reflexivity|].
    intros H. rewrite untagged_cons in H.
    apply andb_true_iff in H as [Hc H].
    rewrite untagged_cons, (IH2 H), andb_true_r.
    destruct (is_lt c); [|reflexivity].
    now rewrite IH1, spaces_gt.
  - intros u rest N M _ [IH1 IH2]. apply spaces_shape in M as [_ M]. split.
    + destruct u as [|a u]; [congruence|]. simpl in M.
      apply andb_true_iff in M as [Ha _]. simpl.
      destruct (is_gt a) eqn:G; [|reflexivity].
      apply gt_not_space in G. congruence.
    + intros H. apply untagged_app_r in H.
      change (lit " " ++ re_sub re_spaces (lit " ") rest)
        with (" "%char :: re_sub re_spaces (lit " ") rest).
      rewrite untagged_cons. now apply IH2.
Qed.

Lemma strip_untagged : forall s, untagged s = true -> untagged (strip s) = true.
Proof.
  intros s H. unfold strip.
  destruct (rstrip_prefix s) as (w1 & E1 & W1).
  destruct (lstrip_suffix (rstrip s)) as (w2 & E2 & _).
  rewrite E1 in H. apply untagged_trailing in H; [|exact W1].
  rewrite E2 in H. now apply untagged_app_r in H.
Qed.

Lemma strip_tags_untagged : forall t, untagged (strip_tags t) = true.
Proof.
  intros t. unfold strip_tags.
  apply strip_untagged, spaces_untagged, tags_removed.
Qed.

(** Cleaned text holds no tag. *)
Lemma cleaned_text_tag_free : forall t,
  has_match re_tag (strip_tags t) = false.
Proof.
  intros t. apply untagged_no_match, strip_tags_untagged.
Qed.

Lemma strip_tags_ws_normal : forall t, ws_normal (strip_tags t) = true.
Proof.
  intros t. unfold strip_tags.
  apply strip_ws_normal; [apply spaces_only_blanks | apply spaces_no_ws_run].
Qed.

(** The cleaning of this script changes nothing the second time. *)
Lemma strip_tags_again : forall t, strip_tags (strip_tags t) = strip_tags t.
Proof.
  intros t. pose proof (strip_tags_ws_normal t) as H.
  unfold ws_normal in H.
  apply andb_true_iff in H as [H L]. apply andb_true_iff in H as [H F].
  apply andb_true_iff in H as [B R].
  unfold strip_tags at 1.
  rewrite (re_sub_no_match re_tag [] _
             (untagged_no_match _ (strip_tags_untagged t))).
  rewrite spaces_id by assumption.
  unfold strip. rewrite (last_ns_rstrip_id _ L).
  now apply head_ns_lstrip_id.
Qed.

(** X5.  [agno_summarize] cleans the text and [fallback_summarize] cleans
    it again; the second cleaning changes nothing.  So the fallback of
    [agno_summarize] is [fallback_summarize] of the text as extracted, and
    [fallback_summarize] gives the same result on a text and on its
    cleaned form. *)
Theorem fallback_cleans_once : forall text title,
  strip_tags (strip_tags text) = strip_tags text
  /\ fallback_summarize (strip_tags text) title
     = fallback_summarize text title
  /\ forall G transcript,
       transcript_text_of transcript = Ok text -> disabled G ->
       agno_summarize G transcript title
       = Ok (fallback_summarize text title).
Proof.
  intros text title.
  assert (E : fallback_summarize (strip_tags text) title
              = fallback_summarize text title)
    by (unfold fallback_summarize; now rewrite strip_tags_again).
  split; [apply strip_tags_again|]. split; [exact E|].
  intros G transcript T D. rewrite <- E. now apply agno_disabled.
Qed.

Lemma fallback_cleans_once_witness :
  agno_summarize {| USING_AGNO := false; llm := None |}
    (PStr (lit "<b>so</b>  it goes")) None
  = Ok (fallback_summarize (lit "<b>so</b>  it goes") None).
Proof.
  apply (proj2 (proj2 (fallback_cleans_once (lit "<b>so</b>  it goes") None))).
  - reflexivity.
  - left. reflexivity.
Defined.

(* ------------------------------------------------------------------ *)
(** ** [agno_summarize]: lists and strings, a text that is no string, what
       reaches the provider *)

(** X7.  A list of segments is summarised exactly like the one string made
    of its ['text'] fields joined by single blanks. *)
Theorem list_like_string : forall G segs title,
  Forall text_or_absent segs ->
  agno_summarize G (PList segs) title
  = agno_summarize G (PStr (join (lit " ") (present_texts segs))) title.
Proof.
  intros G segs title H. unfold agno_summarize.
  now rewrite (transcript_text_of_list _ H).
Qed.

Lemma list_like_string_witness :
  agno_summarize failing_provider
    (PList [segment_lit "a"; PDict []; segment_lit "b"]) None
  = agno_summarize failing_provider (PStr (lit "a b")) None.
Proof.
  apply (list_like_string failing_provider
           [segment_lit "a"; PDict []; segment_lit "b"] None).
  repeat constructor.
  - eexists; split; [reflexivity | right; eexists; reflexivity].
  - eexists; split; [reflexivity | now left].
  - eexists; split; [reflexivity | right; eexists; reflexivity].
Defined.

Lemma text_fields_dicts : forall segs,
  Forall (fun sg => is_dict sg = true) segs ->
  text_fields segs = Ok (present_values segs).
Proof.
  induction 1 as [|sg segs D _ IH]; [reflexivity|].
  destruct sg; try discriminate. simpl.
  destruct (dict_get "text" d); simpl; now rewrite IH.
Qed.

Lemma all_str_bad : forall l v,
  In v l -> is_str v = false -> all_str l = Raise TypeError.
Proof.
  induction l as [|x l IH]; intros v I S; [contradiction|].
  simpl. destruct x; try reflexivity. simpl.
  destruct I as [<- | I]; [discriminate|].
  now rewrite (IH _ I S).
Qed.

(** X8.  A segment without ['text'] is skipped, but a ['text'] that is no
    string (a [null], a number) makes [agno_summarize] raise [TypeError],
    with any provider: the join of the fields fails before the provider is
    looked at. *)
Theorem text_not_string : forall G segs title v,
  Forall (fun sg => is_dict sg = true) segs ->
  In v (present_values segs) -> is_str v = false ->
  agno_summarize G (PList segs) title = Raise TypeError.
Proof.
  intros G segs title v D I S. unfold agno_summarize, transcript_text_of.
  rewrite (text_fields_dicts _ D). simpl. unfold py_join.
  now rewrite (all_str_bad _ _ I S).
Qed.

Lemma text_not_string_witness :
  agno_summarize failing_provider
    (PList [segment_lit "a"; PDict [("text"%string, PNone)]]) None
  = Raise TypeError.
Proof.
  apply (text_not_string failing_provider
           [segment_lit "a"; PDict [("text"%string, PNone)]] None PNone).
  - repeat constructor.
  - right. left. reflexivity.
  - reflexivity.
Defined.

Lemma agno_prompt_head : forall t title,
  agno_prompt t title = agno_prompt [] title ++ firstn 4000 t.
Proof.
  intros t title. unfold agno_prompt. cbv zeta.
  now rewrite firstn_nil, app_nil_r.
Qed.

Lemma firstn_prompt : forall t title,
  firstn 4000 (agno_prompt t title)
  = firstn 4000 (agno_prompt [] title)
    ++ firstn (4000 - length (agno_prompt [] title)) t.
Proof.
  intros t title. rewrite agno_prompt_head, firstn_app, firstn_firstn.
  f_equal. f_equal. lia.
Qed.

(** X9.  The text is cut twice on its way to the provider: [agno_summarize]
    puts [transcript_text[:4000]] behind its instructions, and
    [summarize_with_openai] sends the first 4000 characters of the whole.
    So the message has at most 4037 characters, and only the first
    [4000 - h] characters of the cleaned transcript can reach the provider,
    [h] being the length of the instructions (82 without a title): two
    transcripts that agree on them get the same request, and the same
    answer. *)
Theorem request_cut_twice : forall c deployment title t,
  let h := length (agno_prompt [] title) in
  (exists content,
     summarize_with_openai c deployment (agno_prompt t title)
     = chat_completions_create c deployment
         [ (lit "system",
            lit "You are a helpful assistant that summarizes video transcripts.");
           (lit "user", content) ] 500
     /\ length content <= 4037)
  /\ length (agno_prompt [] None) = 82
  /\ forall t',
       firstn (4000 - h) t = firstn (4000 - h) t' ->
       summarize_with_openai c deployment (agno_prompt t title)
       = summarize_with_openai c deployment (agno_prompt t' title).
Proof.
  intros c deployment title t h. split; [|split; [reflexivity|]].
  - eexists. split; [reflexivity|].
    rewrite !length_app, length_firstn.
    change (length (lit "Please summarize this transcript: ")) with 34.
    change (length (lit "...")) with 3. lia.
  - intros t' E. unfold summarize_with_openai.
    rewrite (firstn_prompt t), (firstn_prompt t'). fold h. now rewrite E.
Qed.

Lemma request_cut_twice_witness :
  summarize_with_openai
    {| chat_completions_create := fun _ msgs _ =>
         Ok (snd (nth 1 msgs ([], []))) |}
    (lit "gpt-4-1")
    (agno_prompt (repeat "a"%char 3918 ++ lit "xyz") None)
  = summarize_with_openai
      {| chat_completions_create := fun _ msgs _ =>
           Ok (snd (nth 1 msgs ([], []))) |}
      (lit "gpt-4-1")
      (agno_prompt (repeat "a"%char 3918 ++ lit "another end") None).
Proof.
  apply (proj2 (proj2 (request_cut_twice _ (lit "gpt-4-1") None
                         (repeat "a"%char 3918 ++ lit "xyz")))).
  vm_compute. reflexivity.
Defined.

(* ------------------------------------------------------------------ *)
(** ** The import of the module and [main] of
       summarize_transcript_with_agnos.py *)

Lemma env_set_some : forall E name,
  env_set E name = true -> exists c v, environ E name = Some (c :: v).
Proof.
  intros E name. unfold env_set.
  destruct (environ E name) as [[|c v]|]; try discriminate.
  intros _. now exists c, v.
Qed.

(** X10.  The import leaves the provider on exactly when the three imports
    succeed, the three variables are set and not empty, and the client can
    be built from them; the call is then [summarize_with_openai] on that
    client and the deployment ["gpt-4-1"].  The default of the API version
    is never used: the version handed to the client is the one of the
    environment. *)
Theorem provider_on : forall E G,
  module_init E = Ok G ->
  (USING_AGNO G = true <->
   import_agno_agent E = true /\ import_openai E = true
   /\ import_AzureOpenAI E = true
   /\ Forall (fun name => env_set E name = true) required_env
   /\ exists key version endpoint cl,
        environ E "AZURE_OPENAI_API_KEY" = Some key
        /\ environ E "AZURE_OPENAI_API_VERSION" = Some version
        /\ environ E "AZURE_OPENAI_ENDPOINT" = Some endpoint
        /\ AzureOpenAI E key version (Some endpoint) = Ok cl
        /\ llm G = Some (summarize_with_openai cl (lit "gpt-4-1"))).
Proof.
  intros E G H. split.
  - intros U. unfold module_init in H. simpl fold_left in H.
    unfold env_set, getenv in *.
    destruct (import_agno_agent E), (import_openai E),
      (import_AzureOpenAI E);
      destruct (environ E "AZURE_OPENAI_API_KEY") as [[|c1 k1]|] eqn:K,
        (environ E "AZURE_OPENAI_API_VERSION") as [[|c2 k2]|] eqn:V,
        (environ E "AZURE_OPENAI_ENDPOINT") as [[|c3 k3]|] eqn:P;
      simpl in H; try (injection H as <-; simpl in U; discriminate).
    match type of H with
    | context [match ?x with _ => _ end] => destruct x as [cl|e] eqn:A
    end.
    + injection H as <-. repeat split; auto.
      * unfold required_env, env_set. repeat constructor.
        -- now rewrite K.
        -- now rewrite V.
        -- now rewrite P.
      * exists (c1 :: k1), (c2 :: k2), (c3 :: k3), cl. auto.
    + destruct (is_Exception e); [injection H as <-|]; discriminate.
  - intros (I1 & I2 & I3 & F & key & version & endpoint & cl
            & K & V & P & A & L).
    unfold required_env in F.
    inversion F as [|? ? F1 F']; subst. inversion F' as [|? ? F2 F'']; subst.
    inversion F'' as [|? ? F3 _]; subst.
    unfold module_init in H. simpl fold_left in H.
    rewrite I1, I2, I3, F1, F2, F3 in H. simpl in H. unfold getenv in H.
    unfold env_set in F1. rewrite K, V, P in H. rewrite K in F1.
    destruct key as [|c k]; [discriminate|]. rewrite A in H.
    now injection H as <-.
Qed.

Lemma provider_on_witness :
  exists key version endpoint cl,
    environ configured_environment "AZURE_OPENAI_API_KEY" = Some key
    /\ environ configured_environment "AZURE_OPENAI_API_VERSION"
       = Some version
    /\ environ configured_environment "AZURE_OPENAI_ENDPOINT" = Some endpoint
    /\ AzureOpenAI configured_environment key version (Some endpoint) = Ok cl
    /\ llm {| USING_AGNO := true;
              llm := Some (summarize_with_openai
                             (echo_client (lit "2023-05-15"))
                             (lit "gpt-4-1")) |}
       = Some (summarize_with_openai cl (lit "gpt-4-1")).
Proof.
  exact (proj2 (proj2 (proj2 (proj2
           (proj1 (provider_on configured_environment
                     {| USING_AGNO := true;
                        llm := Some (summarize_with_openai
                                       (echo_client (lit "2023-05-15"))
                                       (lit "gpt-4-1")) |}
                     eq_refl)
              eq_refl))))).
Defined.

(** X11.  The import never fails with an [Exception]: a missing package, a
    missing variable or a client that cannot be built only switch the
    provider off.  And the two globals agree: the provider is on exactly
    when it has its call. *)
Theorem import_is_silent : forall E,
  (forall e, module_init E = Raise e -> is_Exception e = false)
  /\ (forall G, module_init E = Ok G ->
                (USING_AGNO G = true <-> llm G <> None)).
Proof.
  intros E. split.
  - intros e. unfold module_init.
    repeat match goal with
    | |- context [if ?b then _ else _] => destruct b eqn:?
    | |- context [match ?x with _ => _ end] => destruct x eqn:?
    end; try discriminate.
    intros [= <-]. assumption.
  - intros G H. destruct (module_init_globals _ _ H) as [D | (U & call & L)].
    + unfold module_init in H.
      repeat match type of H with
      | context [if ?b then _ else _] => destruct b
      | context [match ?x with _ => _ end] => destruct x
      end; try discriminate; injection H as <-; simpl;
        split; (discriminate || congruence).
    + rewrite U, L. split; [discriminate | reflexivity].
Qed.

Lemma import_is_silent_witness :
  module_init bare_environment = Ok {| USING_AGNO := false; llm := None |}
  /\ (USING_AGNO {| USING_AGNO := false; llm := None |} = true <->
      llm {| USING_AGNO := false; llm := None |} <> None).
Proof.
  split; [reflexivity|].
  exact (proj2 (import_is_silent bare_environment) _ eq_refl).
Defined.

Lemma module_init_unset : forall E name,
  In name required_env -> env_set E name = false ->
  module_init E = Ok {| USING_AGNO := false; llm := None |}.
Proof.
  intros E name I H. unfold module_init. simpl fold_left.
  destruct (import_agno_agent E), (import_openai E), (import_AzureOpenAI E);
    destruct I as [<- | [<- | [<- | []]]]; rewrite H;
    destruct (env_set E "AZURE_OPENAI_API_KEY"),
      (env_set E "AZURE_OPENAI_API_VERSION"),
      (env_set E "AZURE_OPENAI_ENDPOINT");
    reflexivity.
Qed.

Lemma agnos_main_path : forall F G prog path rest,
  agnos_main F G (prog :: path :: rest) []
  = (transcript <- lift (load_transcript F path) ;;
     summary <- lift (agno_summarize G transcript
                        (match rest with
                         | [] => None
                         | title :: _ => Some title
                         end)) ;;
     print summary)%io [].
Proof.
  intros F G prog path [|title rest]; reflexivity.
Qed.

(** X12.  With one of the three variables missing or empty, the script
    never reaches a provider: on a transcript file that loads, its whole
    output is one [print], of the fallback summary of the text as
    extracted (the short notice, or the report with its line breaks, under
    the title of the command line if there is one), and it returns. *)
Theorem unconfigured_run : forall E F name prog path rest transcript text,
  In name required_env -> env_set E name = false ->
  load_transcript F path = Ok transcript ->
  transcript_text_of transcript = Ok text ->
  agnos_run E F (prog :: path :: rest)
  = ([Printed (fallback_summarize text
                 (match rest with [] => None | title :: _ => Some title end))],
     Ok tt).
Proof.
  intros E F name prog path rest transcript text I H L T.
  unfold agnos_run. rewrite (module_init_unset _ _ I H), agnos_main_path.
  unfold io_bind, lift. rewrite L.
  rewrite (agno_disabled _ _ _ _ T) by (now left).
  unfold fallback_summarize. now rewrite strip_tags_again.
Qed.

Lemma unconfigured_run_witness :
  agnos_run bare_environment one_file [lit "prog"; lit "t.json"; lit "Talk"]
  = ([Printed (fallback_summarize (lit "one <b>two</b> three")
                 (Some (lit "Talk")))], Ok tt).
Proof.
  apply (unconfigured_run bare_environment one_file "AZURE_OPENAI_ENDPOINT"
           (lit "prog") (lit "t.json") [lit "Talk"]
           (PList [segment_lit "one <b>two</b>"; PDict [];
                   segment_lit "three"])).
  - right. right. left. reflexivity.
  - reflexivity.
  - reflexivity.
  - reflexivity.
Defined.

(** X13.  What [main] does not handle.  Without a transcript argument it
    prints the usage line and exits with status 1, and no file is opened.
    A file that cannot be opened or parsed, and a transcript that
    [agno_summarize] rejects, end the script with their exception and
    nothing printed.  An empty title argument counts as no title. *)
Theorem agnos_main_edges : forall F G,
  (forall argv, length argv < 2 ->
     agnos_main F G argv [] = ([Printed usage], Raise (SystemExit 1)))
  /\ (forall prog path rest e,
        load_transcript F path = Raise e ->
        agnos_main F G (prog :: path :: rest) [] = ([], Raise e))
  /\ (forall prog path rest transcript e title,
        load_transcript F path = Ok transcript ->
        agno_summarize G transcript title = Raise e ->
        title = match rest with [] => None | t :: _ => Some t end ->
        agnos_main F G (prog :: path :: rest) [] = ([], Raise e))
  /\ (forall prog path,
        agnos_main F G [prog; path; []] [] = agnos_main F G [prog; path] []).
Proof.
  intros F G. split; [|split; [|split]].
  - intros argv H. unfold agnos_main.
    destruct (Nat.ltb_spec (length argv) 2); [reflexivity | lia].
  - intros prog path rest e L. rewrite agnos_main_path.
    unfold io_bind, lift. now rewrite L.
  - intros prog path rest transcript e title L S ->.
    rewrite agnos_main_path. unfold io_bind, lift. now rewrite L, S.
  - intros prog path. rewrite !agnos_main_path.
    unfold io_bind, lift. destruct (load_transcript F path); [|reflexivity].
    unfold agno_summarize. destruct (transcript_text_of a); reflexivity.
Qed.

Lemma agnos_main_edges_witness :
  agnos_main one_file failing_provider [lit "prog"] []
  = ([Printed usage], Raise (SystemExit 1))
  /\ agnos_main one_file failing_provider [lit "prog"; lit "missing.json"] []
     = ([], Raise OSError).
Proof.
  split.
  - apply (proj1 (agnos_main_edges one_file failing_provider)).
    simpl. lia.
  - apply (proj1 (proj2 (agnos_main_edges one_file failing_provider))).
    reflexivity.
Defined.

(* ------------------------------------------------------------------ *)
(** ** The fetchers of summarize_transcript.py *)

Lemma request_fails_transcript : forall W url msg,
  request_fails W url msg ->
  fetch_transcript_try W url = Raise (RequestException msg).
Proof.
  intros W url msg [R | (resp & R & [S | (S & J)])];
    unfold fetch_transcript_try; rewrite R; simpl.
  - reflexivity.
  - now rewrite S.
  - rewrite S. simpl. now rewrite J.
Qed.

Lemma request_fails_details : forall W url msg,
  request_fails W url msg ->
  fetch_video_details_try W url = Raise (RequestException msg).
Proof.
  intros W url msg [R | (resp & R & [S | (S & J)])];
    unfold fetch_video_details_try; rewrite R; simpl.
  - reflexivity.
  - now rewrite S.
  - rewrite S. simpl. now rewrite J.
Qed.

(** What the [try] of [fetch_transcript] does with a JSON object. *)
Lemma transcript_answer : forall W url d,
  answers W url d ->
  fetch_transcript_try W url
  = if entry_truthy "success" d && entry_truthy "transcript" d
    then subscript (PDict d) "transcript"
    else Raise (PlainException
                  (lit "Failed to fetch transcript: "
                   ++ format_value W
                        (match dict_get "message" d with
                         | Some m => m
                         | None => PStr (lit "Unknown error")
                         end))).
Proof.
  intros W url d (resp & R & S & J).
  unfold fetch_transcript_try, entry_truthy, get, get_default.
  rewrite R. simpl. rewrite S. simpl. rewrite J. simpl.
  destruct (dict_get "success" d) as [s|]; simpl;
    [destruct (truthy s); simpl|];
    try (destruct (dict_get "transcript" d) as [t|]; simpl;
         [destruct (truthy t); simpl|]);
    destruct (dict_get "message" d); reflexivity.
Qed.

Lemma fetch_try_truthy : forall W url t,
  fetch_transcript_try W url = Ok t -> truthy t = true.
Proof.
  intros W url t. unfold fetch_transcript_try.
  destruct (requests_get W url) as [resp|]; [simpl | discriminate].
  destruct (raise_for_status resp); [simpl | discriminate].
  destruct (json resp) as [data|]; [simpl | discriminate].
  destruct data; try discriminate. unfold get, get_default. simpl.
  destruct (dict_get "success" d) as [s|]; simpl;
    [destruct (truthy s); simpl|];
    try (destruct (dict_get "message" d); discriminate).
  destruct (dict_get "transcript" d) as [x|] eqn:T; simpl;
    [destruct (truthy x) eqn:X; simpl|];
    try (destruct (dict_get "message" d); discriminate).
  now intros [= <-].
Qed.

(** A [RequestException] out of the [try] of [fetch_transcript] comes from
    the request itself: the connection, the status or the body. *)
Lemma request_error_origin : forall W url msg,
  fetch_transcript_try W url = Raise (RequestException msg) ->
  request_fails W url msg.
Proof.
  intros W url msg. unfold fetch_transcript_try, request_fails.
  destruct (requests_get W url) as [resp|e]; simpl;
    [|intros [= ->]; now left].
  intros H. right. exists resp. split; [reflexivity|].
  destruct (raise_for_status resp) as [[]|e]; simpl in H;
    [|injection H as ->; now left].
  right. split; [reflexivity|].
  destruct (json resp) as [data|e]; simpl in H;
    [|now injection H as ->].
  exfalso. destruct data; try discriminate.
  unfold get, get_default in H. simpl in H.
  destruct (dict_get "success" d) as [s|]; simpl in H;
    [destruct (truthy s); simpl in H|];
    try (destruct (dict_get "message" d); discriminate).
  destruct (dict_get "transcript" d) as [x|]; simpl in H;
    [destruct (truthy x); simpl in H|];
    try (destruct (dict_get "message" d); discriminate).
Qed.

(** A transcript out of the [try] is the ['transcript'] of the answer. *)
Lemma fetch_try_answer : forall W url t,
  fetch_transcript_try W url = Ok t ->
  exists d, answers W url d /\ dict_get "transcript" d = Some t.
Proof.
  intros W url t. unfold fetch_transcript_try, answers.
  destruct (requests_get W url) as [resp|]; [simpl | discriminate].
  destruct (raise_for_status resp) as [[]|] eqn:S; [simpl | discriminate].
  destruct (json resp) as [data|] eqn:J; [simpl | discriminate].
  destruct data; try discriminate. unfold get, get_default. simpl.
  destruct (dict_get "success" d) as [s|]; simpl;
    [destruct (truthy s); simpl|];
    try (destruct (dict_get "message" d); discriminate).
  destruct (dict_get "transcript" d) as [x|] eqn:T; simpl;
    [destruct (truthy x) eqn:X; simpl|];
    try (destruct (dict_get "message" d); discriminate).
  intros [= <-]. exists d. split; [|exact T]. now exists resp.
Qed.

(** X14.  What [fetch_transcript] hands its caller.  A value that is
    truthy is the ['transcript'] of the answer of the API, and nothing was
    printed.  Otherwise the value is [None]: the request failed with an
    error of [requests] (connection, status or body), and the one line
    printed is ["Error fetching transcript: "] followed by that error.  An
    exception that comes out is never an error of [requests]; the request
    did not fail with one, and nothing was printed. *)
Theorem fetch_transcript_outcome : forall W video_id api_base_url tr tr' r,
  fetch_transcript W video_id api_base_url tr = (tr', r) ->
  let url := api_base_url ++ lit "/api/youtube/transcript/" ++ video_id in
  match r with
  | Ok t =>
      (truthy t = true /\ tr' = tr
       /\ exists d, answers W url d /\ dict_get "transcript" d = Some t)
      \/ (t = PNone
          /\ exists msg,
               request_fails W url msg
               /\ tr' = tr ++ [Printed (lit "Error fetching transcript: "
                                       ++ msg)])
  | Raise e =>
      tr' = tr
      /\ (forall msg, e <> RequestException msg)
      /\ (forall msg, ~ request_fails W url msg)
  end.
Proof.
  intros W video_id api_base_url tr tr' r. unfold fetch_transcript.
  cbv zeta.
  destruct (fetch_transcript_try W _) as [t|e] eqn:E.
  - intros [= <- <-]. left.
    split; [eapply fetch_try_truthy, E|].
    split; [reflexivity | eapply fetch_try_answer, E].
  - assert (N : forall msg, (forall m, e <> RequestException m) ->
              ~ request_fails W
                  (api_base_url ++ lit "/api/youtube/transcript/" ++ video_id)
                  msg).
    { intros msg D R. apply request_fails_transcript in R.
      rewrite R in E. injection E as <-. now apply (D msg). }
    destruct e;
      try (intros [= <- <-];
           split; [reflexivity|];
           split; [discriminate | intros m; apply N; discriminate]).
    intros [= <- <-]. right. split; [reflexivity|].
    exists msg. split; [now apply request_error_origin | reflexivity].
Qed.

Lemma fetch_transcript_outcome_witness :
  (truthy PNone = true
   /\ [Printed (lit "Error fetching transcript: connection refused")] = []
   /\ exists d,
        answers world_offline
          (lit "http://localhost:3000" ++ lit "/api/youtube/transcript/"
           ++ lit "abc123") d
        /\ dict_get "transcript" d = Some PNone)
  \/ (PNone = PNone
      /\ exists msg,
           request_fails world_offline
             (lit "http://localhost:3000" ++ lit "/api/youtube/transcript/"
              ++ lit "abc123") msg
           /\ [Printed (lit "Error fetching transcript: connection refused")]
              = [] ++ [Printed (lit "Error fetching transcript: " ++ msg)]).
Proof.
  exact (fetch_transcript_outcome world_offline (lit "abc123")
           (lit "http://localhost:3000") []
           [Printed (lit "Error fetching transcript: connection refused")]
           (Ok PNone) eq_refl).
Defined.

(** What the [try] of [fetch_video_details] does with a JSON object whose
    ['items'] is falsy or a list. *)
Lemma details_answer : forall W url d,
  answers W url d ->
  (entry_truthy "items" d = false ->
   fetch_video_details_try W url
   = Raise (PlainException (lit "No video details found")))
  /\ (forall x l, dict_get "items" d = Some (PList (x :: l)) ->
      fetch_video_details_try W url = Ok x).
Proof.
  intros W url d (resp & R & S & J).
  unfold fetch_video_details_try, entry_truthy, get, get_default.
  rewrite R. simpl. rewrite S. simpl. rewrite J. simpl. split.
  - destruct (dict_get "items" d) as [v|]; simpl; [|reflexivity].
    now intros ->.
  - intros x l ->. reflexivity.
Qed.

(** X15.  [fetch_video_details] returns the first of the ['items'] of the
    answer, or [None] after it has printed the error of [requests] it
    caught.  An answer without items (no ['items'], or an empty list)
    raises ["No video details found"], which is not caught. *)
Theorem fetch_video_details_outcome : forall W video_id api_base_url tr d,
  answers W (api_base_url ++ lit "/api/youtube/video/" ++ video_id) d ->
  (entry_truthy "items" d = false ->
   fetch_video_details W video_id api_base_url tr
   = (tr, Raise (PlainException (lit "No video details found"))))
  /\ (forall x l, dict_get "items" d = Some (PList (x :: l)) ->
      fetch_video_details W video_id api_base_url tr = (tr, Ok x)).
Proof.
  intros W video_id api_base_url tr d A.
  destruct (details_answer _ _ _ A) as [N I].
  split; [intros H | intros x l H]; unfold fetch_video_details.
  - now rewrite (N H).
  - now rewrite (I _ _ H).
Qed.

Lemma fetch_video_details_outcome_witness :
  fetch_video_details world_without_items (lit "abc123")
    (lit "http://localhost:3000") []
  = ([], Raise (PlainException (lit "No video details found"))).
Proof.
  apply (proj1 (fetch_video_details_outcome world_without_items
                  (lit "abc123") (lit "http://localhost:3000") []
                  [("items"%string, PList [])]
                  ltac:(eexists; repeat split))).
  reflexivity.
Defined.

(* ------------------------------------------------------------------ *)
(** ** The driver of summarize_transcript.py *)

Lemma no_dump_filter : forall tr,
  existsb is_dump tr = false -> filter is_dump tr = [].
Proof.
  induction tr as [|ev tr IH]; simpl; intros H; [reflexivity|].
  apply orb_false_iff in H as [H1 H2]. rewrite H1. auto.
Qed.

(** A run whose transcript is fetched and whose title is found gets as far
    as the cleaning, with no file written yet. *)
Lemma run_to_clean : forall W a transcript title n,
  fetched W a transcript -> titled W a title -> py_len transcript = Ok n ->
  exists tr,
    existsb is_dump tr = false
    /\ run W a
       = (transcript_text <- lift (clean_transcript_text transcript) ;;
          print (lit "Generating summary with Agno agent...") ;;
          summary <- lift (summarize_with_agno W transcript_text title) ;;
          output_result W a title summary)%io tr.
Proof.
  intros W a transcript title n [F T] (details & D & Ti) L.
  unfold transcript_url in F. unfold video_url in D.
  cbv [run main io_bind print emit lift ret raise fetch_transcript
       fetch_video_details].
  rewrite F. cbv beta iota. rewrite T.
  change (negb true) with false. cbv beta iota.
  destruct D as [D | (-> & msg & D)]; rewrite D; cbv beta iota;
    rewrite Ti, L; eexists; (split; [|reflexivity]); reflexivity.
Qed.

(** X16.  An error of [requests] on the transcript request (connection,
    status or body) ends the run at once: two lines are printed, the second
    with the error, the exit status is 1, and neither the video API nor the
    agno library nor a file is touched. *)
Theorem transcript_request_fails : forall W a msg,
  request_fails W (transcript_url a) msg ->
  run W a
  = ([Printed (lit "Fetching transcript for video: " ++ video_id a);
      Printed (lit "Error fetching transcript: " ++ msg)],
     Raise (SystemExit 1)).
Proof.
  intros W a msg H. apply request_fails_transcript in H.
  unfold transcript_url in H.
  cbv [run main io_bind print emit lift ret raise fetch_transcript].
  rewrite H. reflexivity.
Qed.

Lemma transcript_request_fails_witness :
  exit_status (run world_offline some_args) = 1%Z.
Proof.
  rewrite (transcript_request_fails world_offline some_args
             (lit "connection refused")).
  - reflexivity.
  - left. reflexivity.
Defined.

(** X17.  An answer of the transcript API that lacks a truthy ['success']
    or a truthy ['transcript'] (a missing key, [false], an empty list) ends
    the run with the exception ["Failed to fetch transcript: "] followed by
    the ['message'] of the answer, or ["Unknown error"]: one line printed,
    no file, exit status 1. *)
Theorem transcript_missing : forall W a d,
  answers W (transcript_url a) d ->
  entry_truthy "success" d && entry_truthy "transcript" d = false ->
  run W a
  = ([Printed (lit "Fetching transcript for video: " ++ video_id a)],
     Raise (PlainException
              (lit "Failed to fetch transcript: "
               ++ format_value W
                    (match dict_get "message" d with
                     | Some m => m
                     | None => PStr (lit "Unknown error")
                     end))))
  /\ exit_status (run W a) = 1%Z.
Proof.
  intros W a d A H. pose proof (transcript_answer _ _ _ A) as E.
  rewrite H in E. unfold transcript_url in E.
  assert (R : run W a
              = ([Printed (lit "Fetching transcript for video: "
                           ++ video_id a)],
                 Raise (PlainException
                          (lit "Failed to fetch transcript: "
                           ++ format_value W
                                (match dict_get "message" d with
                                 | Some m => m
                                 | None => PStr (lit "Unknown error")
                                 end))))).
  { cbv [run main io_bind print emit lift ret raise fetch_transcript].
    rewrite E. reflexivity. }
  split; [exact R | now rewrite R].
Qed.

Lemma transcript_missing_witness :
  exit_status (run (world_of (PList []) false) some_args) = 1%Z.
Proof.
  apply (transcript_missing (world_of (PList []) false) some_args
           [("success"%string, PBool true);
            ("transcript"%string, PList [])]).
  - eexists. repeat split.
  - reflexivity.
Defined.

(** X18.  When the video API answers without items, the run ends with
    ["No video details found"] although the transcript was fetched: two
    lines printed, no file, exit status 1, the agno library not
    reached. *)
Theorem details_missing : forall W a transcript d,
  fetched W a transcript ->
  answers W (video_url a) d ->
  entry_truthy "items" d = false ->
  run W a
  = ([Printed (lit "Fetching transcript for video: " ++ video_id a);
      Printed (lit "Fetching video details...")],
     Raise (PlainException (lit "No video details found")))
  /\ exit_status (run W a) = 1%Z.
Proof.
  intros W a transcript d [F T] A H.
  destruct (details_answer _ _ _ A) as [N _]. specialize (N H).
  unfold transcript_url in F. unfold video_url in N.
  assert (R : run W a
              = ([Printed (lit "Fetching transcript for video: "
                           ++ video_id a);
                  Printed (lit "Fetching video details...")],
                 Raise (PlainException (lit "No video details found")))).
  { cbv [run main io_bind print emit lift ret raise fetch_transcript
         fetch_video_details].
    rewrite F. cbv beta iota. rewrite T.
    change (negb true) with false. cbv beta iota. rewrite N. reflexivity. }
  split; [exact R | now rewrite R].
Qed.

Lemma details_missing_witness :
  exit_status (run world_without_items some_args) = 1%Z.
Proof.
  apply (details_missing world_without_items some_args
           (PList [segment_lit "hello"]) [("items"%string, PList [])]).
  - split; reflexivity.
  - eexists. repeat split.
  - reflexivity.
Defined.

(** X19.  When the video request fails with an error of [requests], the
    run goes on under the title ["Untitled Video"]: with a summary from the
    agno library and an output file that opens, it prints six lines (the
    third with the error), writes the file before the last and returns. *)
Theorem details_request_fails : forall W a segs text summary msg p,
  fetched W a (PList segs) ->
  request_fails W (video_url a) msg ->
  clean_transcript_text (PList segs) = Ok text ->
  summarize_with_agno W text untitled = Ok summary ->
  output a = Some p -> p <> [] -> open_w W p = Ok tt ->
  run W a
  = ([Printed (lit "Fetching transcript for video: " ++ video_id a);
      Printed (lit "Fetching video details...");
      Printed (lit "Error fetching video details: " ++ msg);
      Printed (lit "Processing transcript with "
               ++ str_of_nat (length segs) ++ lit " segments");
      Printed (lit "Generating summary with Agno agent...");
      Dumped p (video_id a) untitled summary;
      Printed (lit "Summary saved to " ++ p)],
     Ok tt).
Proof.
  intros W a segs text summary msg p [F T] R C S O N Op.
  apply request_fails_details in R.
  unfold transcript_url in F. unfold video_url in R.
  destruct p as [|c p]; [congruence|].
  cbv [run main io_bind print emit lift ret raise fetch_transcript
       fetch_video_details output_result].
  rewrite F. cbv beta iota. rewrite T.
  change (negb true) with false. cbv beta iota. rewrite R.
  cbv beta iota.
  change (title_of_details PNone) with (Ok untitled).
  cbv [py_len]. cbv beta iota. rewrite C. cbv beta iota.
  rewrite S, O. cbv beta iota. rewrite Op, Nat2Z.id. reflexivity.
Qed.

Lemma details_request_fails_witness :
  dumps (run world_without_details some_args)
  = [Dumped (lit "out.json") (lit "abc123") untitled (lit "a summary")].
Proof.
  rewrite (details_request_fails world_without_details some_args
             [segment_lit "hello"] (lit "hello") (lit "a summary")
             (lit "connection refused") (lit "out.json")).
  - reflexivity.
  - split; reflexivity.
  - left. reflexivity.
  - reflexivity.
  - reflexivity.
  - reflexivity.
  - discriminate.
  - reflexivity.
Defined.

Lemma dumps_app : forall tr tr' r,
  existsb is_dump tr = false ->
  dumps (tr ++ tr', r) = filter is_dump tr'.
Proof.
  intros tr tr' r H. unfold dumps. simpl fst.
  now rewrite filter_app, (no_dump_filter _ H).
Qed.

(** X20.  What a run that succeeds puts out.  With [--output], the one file
    written holds the video id of the command line, the title found and
    the summary as the agno library returned it, and the last line printed
    names the file.  Without, no file is written and the last four lines
    printed are the rule, the title, the summary and the rule. *)
Theorem run_output : forall W a segs title text summary,
  fetched W a (PList segs) ->
  titled W a title ->
  clean_transcript_text (PList segs) = Ok text ->
  summarize_with_agno W text title = Ok summary ->
  (forall p, output a = Some p -> p <> [] -> open_w W p = Ok tt ->
     dumps (run W a) = [Dumped p (video_id a) title summary]
     /\ exists tr,
          run W a
          = (tr ++ [Dumped p (video_id a) title summary;
                    Printed (lit "Summary saved to " ++ p)], Ok tt))
  /\ (output a = None \/ output a = Some [] ->
      dumps (run W a) = []
      /\ exists tr,
           run W a
           = (tr ++ [Printed (rule ++ [nl]);
                     Printed (lit "Summary for: " ++ format_value W title
                              ++ [nl]);
                     Printed summary;
                     Printed rule], Ok tt)).
Proof.
  intros W a segs title text summary F T C S.
  destruct (run_to_clean W a (PList segs) title _ F T eq_refl)
    as (tr & D & E).
  rewrite E. cbv [io_bind lift print emit]. rewrite C, S.
  unfold output_result. split.
  - intros [|c p] O N Op; [congruence|]. rewrite O.
    cbv [io_bind lift print emit]. rewrite Op.
    rewrite <- !app_assoc. simpl app. split.
    + rewrite dumps_app; [reflexivity | exact D].
    + exists (tr ++ [Printed (lit "Generating summary with Agno agent...")]).
      now rewrite <- app_assoc.
  - intros O.
    assert (X : (match output a with
                 | Some (c :: p) =>
                     (lift (open_w W (c :: p)) ;;
                      emit (Dumped (c :: p) (video_id a) title summary) ;;
                      print (lit "Summary saved to " ++ c :: p))%io
                 | _ =>
                     (print (rule ++ [nl]) ;;
                      print (lit "Summary for: " ++ format_value W title
                             ++ [nl]) ;;
                      print summary ;;
                      print rule)%io
                 end)
                = (print (rule ++ [nl]) ;;
                   print (lit "Summary for: " ++ format_value W title
                          ++ [nl]) ;;
                   print summary ;;
                   print rule)%io)
      by (destruct O as [-> | ->]; reflexivity).
    rewrite X. cbv [io_bind lift print emit].
    rewrite <- !app_assoc. simpl app. split.
    + rewrite dumps_app; [reflexivity | exact D].
    + exists (tr ++ [Printed (lit "Generating summary with Agno agent...")]).
      now rewrite <- app_assoc.
Qed.

Lemma run_output_witness :
  dumps (run world_with_llm some_args)
  = [Dumped (lit "out.json") (lit "abc123") (PStr (lit "A talk"))
       (lit "a summary")].
Proof.
  apply (proj1 (run_output world_with_llm some_args
                  [segment_lit "hello"] (PStr (lit "A talk")) (lit "hello")
                  (lit "a summary")
                  ltac:(split; reflexivity)
                  ltac:(eexists; split; [left; reflexivity | reflexivity])
                  eq_refl eq_refl)
           (lit "out.json") eq_refl ltac:(discriminate) eq_refl).
Defined.





(** X23.  An output file that cannot be opened loses the summary: the run
    ends with the exception of [open], after the agno library has
    answered, with no file written. *)
Theorem output_locked : forall W a segs title text summary p e,
  fetched W a (PList segs) ->
  titled W a title ->
  clean_transcript_text (PList segs) = Ok text ->
  summarize_with_agno W text title = Ok summary ->
  output a = Some p -> p <> [] -> open_w W p = Raise e ->
  snd (run W a) = Raise e /\ dumps (run W a) = [].
Proof.
  intros W a segs title text summary p e F T C S O N Op.
  destruct (run_to_clean W a (PList segs) title _ F T eq_refl)
    as (tr & D & E).
  destruct p as [|c p]; [congruence|].
  rewrite E. cbv [io_bind lift print emit]. rewrite C, S.
  unfold output_result. rewrite O. cbv [io_bind lift print emit].
  rewrite Op. split; [reflexivity|].
  rewrite dumps_app; [reflexivity | exact D].
Qed.

Lemma output_locked_witness :
  snd (run (world_of (PList [segment_lit "hello"]) true) some_args)
  = Raise OSError.
Proof.
  apply (output_locked (world_of (PList [segment_lit "hello"]) true)
           some_args [segment_lit "hello"] (PStr (lit "A talk"))
           (lit "hello") (lit "a summary") (lit "out.json") OSError).
  - split; reflexivity.
  - eexists. split; [left; reflexivity | reflexivity].
  - reflexivity.
  - reflexivity.
  - reflexivity.
  - discriminate.
  - reflexivity.
Defined.

Lemma firstn_nil_iff : forall (A : Type) n (l : list A),
  0 < n -> firstn n l = [] -> l = [].
Proof.
  intros A [|n] [|x l] H E; try reflexivity; [lia | discriminate].
Qed.

(** X24.  [summarize_with_agno] reads no further than the first 10,000
    characters of the transcript: two transcripts that agree on them get
    the same prompt, hence the same outcome. *)
Theorem summary_reads_prefix : forall W t1 t2 title,
  firstn 10000 t1 = firstn 10000 t2 ->
  summarize_with_agno W t1 title = summarize_with_agno W t2 title.
Proof.
  intros W t1 t2 title E.
  assert (P : 0 < 10000) by (apply Nat.lt_0_succ).
  destruct t1 as [|c1 t1], t2 as [|c2 t2]; [reflexivity | | |].
  - symmetry in E. apply firstn_nil_iff in E; [discriminate | exact P].
  - apply firstn_nil_iff in E; [discriminate | exact P].
  - unfold summarize_with_agno, agno_agent_prompt. now rewrite E.
Qed.

Lemma summary_reads_prefix_witness :
  summarize_with_agno world_with_llm (repeat "a"%char 10000 ++ lit "x")
    (PStr (lit "T"))
  = summarize_with_agno world_with_llm (repeat "a"%char 10000 ++ lit "yz")
      (PStr (lit "T")).
Proof.
  apply (summary_reads_prefix world_with_llm).
  vm_compute. reflexivity.
Defined.
